(** * Analytical linear fit and chi-square evaluation

    A shallow embedding of the fit loop of
    [Week1/original/ChiSquareTest/AnalyticalLinearFit_original.ipynb]:
    data generation on the grid [x = 1..Npoints], the closed-form
    straight-line fit, the hand-written chi-square loop, the number of degrees
    of freedom, the chi-square probability, and the loop over [Nexp]
    pseudo-experiments that fills the four result arrays.

    Numbers are modelled the way numpy holds them.  [x] and the sums [sx],
    [sxx], [Delta] are 64-bit signed integers (the dtype of [np.arange] on
    Linux and macOS) and wrap around.  Everything else is a double; the code is
    written once over an interface of the double operations and read at two
    instances: IEEE binary64 (Rocq's primitive floats), which is what Python
    runs, and the real numbers, which is the arithmetic the formulas of the
    note are derived in. *)

From Stdlib Require Import ZArith List Lia Floats Reals Lra Psatz.
Import ListNotations.

Local Open Scope Z_scope.

(** ** 64-bit integers of numpy *)

Definition int64_min : Z := - 2 ^ 63.
Definition int64_max : Z := 2 ^ 63 - 1.

Definition in_int64 (z : Z) : Prop := int64_min <= z <= int64_max.

(** Two's complement wrap-around of an exact integer result. *)
Definition wrap64 (z : Z) : Z := (z + 2 ^ 63) mod 2 ^ 64 - 2 ^ 63.

Definition i64_add (a b : Z) : Z := wrap64 (a + b).
Definition i64_sub (a b : Z) : Z := wrap64 (a - b).
Definition i64_mul (a b : Z) : Z := wrap64 (a * b).

(** ** Doubles

    The operations the notebook applies to Python floats and [np.float64]
    values.  [of_int] is the conversion numpy inserts when an integer meets a
    float ([sy * sxx], [alpha1 * x], [sxx / Delta], the literal [0.0]).
    [fpow2] is [t**2] on a scalar, which numpy hands to the C library's
    [pow]; [signbit] is the test [r.normal] applies to its scale. *)

Class Float64 (F : Type) : Type := {
  fadd : F -> F -> F;
  fsub : F -> F -> F;
  fmul : F -> F -> F;
  fdiv : F -> F -> F;
  fsqrt : F -> F;
  fpow2 : F -> F;
  signbit : F -> bool;
  of_int : Z -> F
}.

(** IEEE 754 binary64, round to nearest even: the arithmetic Python runs.
    [pow (t, 2.0)] is read as the correctly rounded square; the C library's
    result is that value whenever [t * t] is a double, and may differ from it
    in the last bit otherwise. *)
#[export] Instance binary64 : Float64 float := {
  fadd := PrimFloat.add;
  fsub := PrimFloat.sub;
  fmul := PrimFloat.mul;
  fdiv := PrimFloat.div;
  fsqrt := PrimFloat.sqrt;
  fpow2 := fun t => PrimFloat.mul t t;
  signbit := PrimFloat.get_sign;
  of_int := fun z => SF2Prim (binary_normalize prec emax z 0 false)
}.

(** Exact arithmetic on the reals. *)
#[export] Instance exact : Float64 R := {
  fadd := Rplus;
  fsub := Rminus;
  fmul := Rmult;
  fdiv := Rdiv;
  fsqrt := sqrt;
  fpow2 := fun t => Rmult t t;
  signbit := fun t => if Rlt_dec t 0 then true else false;
  of_int := IZR
}.

(** ** Python exceptions

    Subscripting ([x[i]], [array_alpha0[iexp] = ...]) raises [IndexError] out
    of range; [r.seed] and [r.normal] raise [ValueError] on a seed outside
    [0 .. 2^32 - 1] and on a scale whose sign bit is set.  Divisions and
    square roots act on numpy scalars: they warn and return [inf] or [nan],
    they do not raise. *)

Inductive exn : Type := IndexError | ValueError.

Inductive py (A : Type) : Type :=
| Ok (a : A)
| Raise (e : exn).
Arguments Ok {A} a.
Arguments Raise {A} e.

Definition bind {A B : Type} (m : py A) (k : A -> py B) : py B :=
  match m with
  | Ok a => k a
  | Raise e => Raise e
  end.

Notation "x <- m ;; k" := (bind m (fun x => k))
  (at level 61, m at next level, right associativity).

(** [l[i]] for [0 <= i]. *)
Definition getitem {A : Type} (l : list A) (i : nat) : py A :=
  match nth_error l i with
  | Some a => Ok a
  | None => Raise IndexError
  end.

Fixpoint replace_nth {A : Type} (l : list A) (i : nat) (v : A) : list A :=
  match l, i with
  | [], _ => []
  | _ :: t, O => v :: t
  | h :: t, S j => h :: replace_nth t j v
  end.

(** [l[i] = v] for [0 <= i]. *)
Definition setitem {A : Type} (l : list A) (i : nat) (v : A) : py (list A) :=
  if (i <? length l)%nat then Ok (replace_nth l i v) else Raise IndexError.

(** Elementwise binary operation on two arrays of one length. *)
Fixpoint map2 {A B C : Type} (f : A -> B -> C) (a : list A) (b : list B) : list C :=
  match a, b with
  | u :: a', v :: b' => f u v :: map2 f a' b'
  | _, _ => []
  end.

(** ** Integer arrays *)

(** [np.arange(n)] *)
Definition np_arange (n : nat) : list Z := map Z.of_nat (seq 0 n).

(** [np.sum] of an int64 array. *)
Definition np_sum_int (l : list Z) : Z := fold_left i64_add l 0.

(** [x**2] on an int64 array. *)
Definition np_square_int (l : list Z) : list Z := map (fun v => i64_mul v v) l.

(** [np.ones_like(x)] *)
Definition np_ones_like (x : list Z) : list Z := map (fun _ => 1) x.

(** [s], [sx], [sxx] and [Delta = sxx * s - sx**2]. *)
Definition s_calc (x : list Z) : Z := Z.of_nat (length x).
Definition sx_calc (x : list Z) : Z := np_sum_int x.
Definition sxx_calc (x : list Z) : Z := np_sum_int (np_square_int x).
Definition Delta (x : list Z) : Z :=
  i64_sub (i64_mul (sxx_calc x) (s_calc x)) (i64_mul (sx_calc x) (sx_calc x)).

(** The grid of every generated dataset: [x = np.arange(Npoints)+1]. *)
Definition x_grid (Npoints : nat) : list Z :=
  map (fun v => i64_add v 1) (np_arange Npoints).

(** ** The program settings (cell 4 of the notebook) *)

Record Settings (F : Type) : Type := {
  Nexp : nat;
  Npoints : nat;
  alpha0 : F;
  alpha1 : F;
  sigmay : F
}.
Arguments Nexp {F} _.
Arguments Npoints {F} _.
Arguments alpha0 {F} _.
Arguments alpha1 {F} _.
Arguments sigmay {F} _.

(** ** The result of one analytical fit *)

Record LinearModel (F : Type) : Type := {
  alpha0_calc : F;
  alpha1_calc : F;
  sigma_alpha0_calc : F;
  sigma_alpha1_calc : F
}.
Arguments alpha0_calc {F} _.
Arguments alpha1_calc {F} _.
Arguments sigma_alpha0_calc {F} _.
Arguments sigma_alpha1_calc {F} _.

Record FitResult (F : Type) : Type := {
  model : LinearModel F;
  Chi2_calc : F;
  Ndof_calc : Z;
  Prob_calc : F
}.
Arguments model {F} _.
Arguments Chi2_calc {F} _.
Arguments Ndof_calc {F} _.
Arguments Prob_calc {F} _.

(** The four arrays the loop fills. *)
Record Arrays (F : Type) : Type := {
  array_alpha0 : list F;
  array_alpha1 : list F;
  array_Chi2 : list F;
  array_Prob : list F
}.
Arguments array_alpha0 {F} _.
Arguments array_alpha1 {F} _.
Arguments array_Chi2 {F} _.
Arguments array_Prob {F} _.

Section Notebook.

Context {F : Type} {FO : Float64 F}.

(** [stats.chi2.sf] of scipy: an external special function. *)
Variable chi2_sf : F -> Z -> F.

(** The state of the global generator [r = np.random], how [r.seed] sets it
    and one standard normal draw from it. *)
Context {G : Type}.
Variable seed : Z -> G.
Variable gauss : G -> F * G.

(** [np.sum] of a float array is numpy's pairwise summation, added to the
    [0.0] the reduction starts from.  Fewer than 8 elements are accumulated
    from [0.0] in index order.  Up to 128 elements go through 8 partial sums
    [r[0..7]], started at the first 8 elements and fed 8 elements at a time;
    the partial sums are added as a tree and the elements left over are
    added one by one.  A longer array is split at half its length rounded
    down to a multiple of 8, and the sums of the two parts are added. *)
Fixpoint add_groups (k : nat) (r rest : list F) : list F * list F :=
  match k with
  | O => (r, rest)
  | S k' => add_groups k' (map2 fadd r (firstn 8 rest)) (skipn 8 rest)
  end.

Definition tree8 (r : list F) : F :=
  match r with
  | [r0; r1; r2; r3; r4; r5; r6; r7] =>
      fadd (fadd (fadd r0 r1) (fadd r2 r3)) (fadd (fadd r4 r5) (fadd r6 r7))
  | _ => of_int 0
  end.

Definition block_sum (l : list F) : F :=
  let (r, rest) := add_groups (length l / 8 - 1) (firstn 8 l) (skipn 8 l) in
  fold_left fadd rest (tree8 r).

Fixpoint pairwise_sum (depth : nat) (l : list F) : F :=
  let n := length l in
  if (n <? 8)%nat then fold_left fadd l (of_int 0)
  else if (n <=? 128)%nat then block_sum l
  else
    match depth with
    | O => block_sum l
    | S d =>
        let n2 := (n / 2 - (n / 2) mod 8)%nat in
        fadd (pairwise_sum d (firstn n2 l)) (pairwise_sum d (skipn n2 l))
    end.

(** The recursion halves the array, so [length l] levels are more than it
    ever uses. *)
Definition np_sum (l : list F) : F := fadd (of_int 0) (pairwise_sum (length l) l).

(** [np.zeros(n)] *)
Definition np_zeros (n : nat) : list F := repeat (of_int 0) n.

(** [size] draws in sequence, each [loc + scale * gauss]. *)
Fixpoint normal_sample (loc scale : F) (size : nat) (g : G) : list F * G :=
  match size with
  | O => ([], g)
  | S n =>
      let (z, g1) := gauss g in
      let (zs, g2) := normal_sample loc scale n g1 in
      (fadd loc (fmul scale z) :: zs, g2)
  end.

(** [r.normal(loc, scale, size)]: [ValueError] when the sign bit of the scale
    is set, the sample otherwise. *)
Definition normal (loc scale : F) (size : nat) (g : G) : py (list F * G) :=
  if signbit scale then Raise ValueError else Ok (normal_sample loc scale size g).

(** *** Generating data *)

(** [y = alpha0 + alpha1*x + noise] *)
Definition y_data (a0 a1 : F) (x : list Z) (noise : list F) : list F :=
  map2 fadd (map (fun xi => fadd a0 (fmul a1 (of_int xi))) x) noise.

(** [ey = sigmay*np.ones_like(x)] *)
Definition ey_data (sy : F) (x : list Z) : list F :=
  map (fun o => fmul sy (of_int o)) (np_ones_like x).

(** *** Analytical fit *)

Definition sy_calc (y : list F) : F := np_sum y.
Definition sxy_calc (x : list Z) (y : list F) : F :=
  np_sum (map2 (fun xi yi => fmul (of_int xi) yi) x y).

Definition AnalyticalLinearFit (x : list Z) (y : list F) (sigma : F) : LinearModel F :=
  let s := s_calc x in
  let sx := sx_calc x in
  let sxx := sxx_calc x in
  let sy := sy_calc y in
  let sxy := sxy_calc x y in
  let D := Delta x in
  {| alpha0_calc := fdiv (fsub (fmul sy (of_int sxx)) (fmul sxy (of_int sx))) (of_int D);
     alpha1_calc := fdiv (fsub (fmul sxy (of_int s)) (fmul sy (of_int sx))) (of_int D);
     sigma_alpha0_calc := fmul sigma (fsqrt (fdiv (of_int sxx) (of_int D)));
     sigma_alpha1_calc := fmul sigma (fsqrt (fdiv (of_int s) (of_int D))) |}.

(** *** Chi-square, degrees of freedom and probability *)

(** One pass of [for i in range(Npoints)]:
    [fit_value = a0 + a1 * x[i]],
    [Chi2_calc += ((y[i] - fit_value) / ey[i])**2]. *)
Definition Chi2_term (x : list Z) (y ey : list F) (a0 a1 : F) (i : nat) : py F :=
  xi <- getitem x i ;;
  yi <- getitem y i ;;
  eyi <- getitem ey i ;;
  let fit_value := fadd a0 (fmul a1 (of_int xi)) in
  Ok (fpow2 (fdiv (fsub yi fit_value) eyi)).

Fixpoint Chi2_loop (x : list Z) (y ey : list F) (a0 a1 : F)
    (range : list nat) (acc : F) : py F :=
  match range with
  | [] => Ok acc
  | i :: rest =>
      t <- Chi2_term x y ey a0 a1 i ;;
      Chi2_loop x y ey a0 a1 rest (fadd acc t)
  end.

Definition Chi2 (n : nat) (x : list Z) (y ey : list F) (a0 a1 : F) : py F :=
  Chi2_loop x y ey a0 a1 (seq 0 n) (of_int 0).

Definition Nvar : Z := 2.

(** [Ndof_calc = Npoints - Nvar] on Python integers. *)
Definition Ndof (n : nat) : Z := Z.of_nat n - Nvar.

Definition GoodnessOfFit (n : nat) (x : list Z) (y ey : list F)
    (m : LinearModel F) : py (FitResult F) :=
  c <- Chi2 n x y ey (alpha0_calc m) (alpha1_calc m) ;;
  Ok {| model := m;
        Chi2_calc := c;
        Ndof_calc := Ndof n;
        Prob_calc := chi2_sf c (Ndof n) |}.

(** *** One pseudo-experiment: generate, fit, evaluate *)

Definition experiment (cfg : Settings F) (noise : list F) : py (FitResult F) :=
  let x := x_grid (Npoints cfg) in
  let y := y_data (alpha0 cfg) (alpha1 cfg) x noise in
  let ey := ey_data (sigmay cfg) x in
  GoodnessOfFit (Npoints cfg) x y ey (AnalyticalLinearFit x y (sigmay cfg)).

(** *** The loop over pseudo-experiments

    The numerical cross-check by Minuit inside the loop reads [x], [y], [ey]
    and writes none of the arrays; it is left out.  [printed] collects, for
    [iexp < 10], the analytical half of the line the loop prints. *)

Record Loop : Type := {
  rng : G;
  arrays : Arrays F;
  printed : list (LinearModel F * F)
}.

Definition iteration (cfg : Settings F) (iexp : nat) (st : Loop) : py Loop :=
  drawn <- normal (of_int 0) (sigmay cfg) (Npoints cfg) (rng st) ;;
  let (noise, g') := drawn in
  r <- experiment cfg noise ;;
  a0 <- setitem (array_alpha0 (arrays st)) iexp (alpha0_calc (model r)) ;;
  a1 <- setitem (array_alpha1 (arrays st)) iexp (alpha1_calc (model r)) ;;
  c <- setitem (array_Chi2 (arrays st)) iexp (Chi2_calc r) ;;
  p <- setitem (array_Prob (arrays st)) iexp (Prob_calc r) ;;
  Ok {| rng := g';
        arrays := {| array_alpha0 := a0; array_alpha1 := a1;
                     array_Chi2 := c; array_Prob := p |};
        printed := if (iexp <? 10)%nat
                   then printed st ++ [(model r, Prob_calc r)]
                   else printed st |}.

Fixpoint iterations (cfg : Settings F) (range : list nat) (st : Loop) : py Loop :=
  match range with
  | [] => Ok st
  | iexp :: rest =>
      st' <- iteration cfg iexp st ;;
      iterations cfg rest st'
  end.

(** The arrays as allocated, the generator as it is when the loop starts. *)
Definition start (cfg : Settings F) (g : G) : Loop :=
  {| rng := g;
     arrays := {| array_alpha0 := np_zeros (Nexp cfg);
                  array_alpha1 := np_zeros (Nexp cfg);
                  array_Chi2 := np_zeros (Nexp cfg);
                  array_Prob := np_zeros (Nexp cfg) |};
     printed := [] |}.

Definition Repeater (cfg : Settings F) (g : G) : py Loop :=
  iterations cfg (seq 0 (Nexp cfg)) (start cfg g).


End Notebook.

(** * Properties *)

(** ** Wrap-around arithmetic *)

Definition Zsum (l : list Z) : Z := fold_right Z.add 0 l.

(** The moments of [x] as exact integers: what the note's formulas mean by
    [Sx], [Sxx] and [Delta = Sxx * S - Sx^2]. *)
Definition exact_Sx (x : list Z) : Z := Zsum x.
Definition exact_Sxx (x : list Z) : Z := Zsum (map (fun v => v * v) x).
Definition exact_Delta (x : list Z) : Z :=
  exact_Sxx x * Z.of_nat (length x) - exact_Sx x * exact_Sx x.

(** No 64-bit result the fit reads is out of range. *)
Definition fits_int64 (x : list Z) : Prop :=
  Forall in_int64 x /\ in_int64 (exact_Sx x) /\ in_int64 (exact_Sxx x)
  /\ in_int64 (exact_Delta x).

(** The grid [1..n] as exact integers. *)
Definition one_to (n : nat) : list Z := map (fun i => Z.of_nat i + 1) (seq 0 n).

(** The largest [Npoints] whose [Delta] fits 64 bits. *)
Definition Npoints_max : nat := Z.to_nat 102569.

Lemma wrap64_id (z : Z) : in_int64 z -> wrap64 z = z.
Proof.
  unfold in_int64, int64_min, int64_max, wrap64. intros H.
  rewrite Z.mod_small; lia.
Qed.

Lemma wrap64_range (z : Z) : in_int64 (wrap64 z).
Proof.
  unfold in_int64, int64_min, int64_max, wrap64.
  pose proof (Z.mod_pos_bound (z + 2 ^ 63) (2 ^ 64) ltac:(lia)). lia.
Qed.

Lemma wrap64_cong (a b : Z) : a mod 2 ^ 64 = b mod 2 ^ 64 -> wrap64 a = wrap64 b.
Proof.
  intros H. unfold wrap64. f_equal.
  rewrite (Z.add_mod a), (Z.add_mod b), H by lia. reflexivity.
Qed.

Lemma wrap64_mod (a : Z) : wrap64 a mod 2 ^ 64 = a mod 2 ^ 64.
Proof.
  unfold wrap64.
  rewrite Zminus_mod, Z.mod_mod by lia.
  rewrite <- Zminus_mod. f_equal. lia.
Qed.

Lemma wrap64_idem (a : Z) : wrap64 (wrap64 a) = wrap64 a.
Proof. apply wrap64_cong, wrap64_mod. Qed.

Lemma wrap64_add_l (a b : Z) : wrap64 (wrap64 a + b) = wrap64 (a + b).
Proof.
  apply wrap64_cong.
  rewrite Z.add_mod, wrap64_mod, <- Z.add_mod by lia. reflexivity.
Qed.

Lemma wrap64_add_r (a b : Z) : wrap64 (a + wrap64 b) = wrap64 (a + b).
Proof. rewrite Z.add_comm, wrap64_add_l. f_equal. lia. Qed.

Lemma wrap64_sub (a b : Z) : wrap64 (wrap64 a - wrap64 b) = wrap64 (a - b).
Proof.
  apply wrap64_cong.
  rewrite Zminus_mod, !wrap64_mod, <- Zminus_mod. reflexivity.
Qed.

Lemma wrap64_mul (a b : Z) : wrap64 (wrap64 a * wrap64 b) = wrap64 (a * b).
Proof.
  apply wrap64_cong.
  rewrite Z.mul_mod, !wrap64_mod, <- Z.mul_mod by lia. reflexivity.
Qed.

Lemma wrap64_mul_l (a b : Z) : wrap64 (wrap64 a * b) = wrap64 (a * b).
Proof.
  apply wrap64_cong.
  rewrite Z.mul_mod, wrap64_mod, <- Z.mul_mod by lia. reflexivity.
Qed.

Lemma fold_i64_add (l : list Z) (a : Z) :
  wrap64 (fold_left i64_add l a) = wrap64 (a + Zsum l).
Proof.
  revert a. induction l as [|h t IH]; intros a; simpl.
  - f_equal. lia.
  - rewrite IH. unfold i64_add. rewrite wrap64_add_l. f_equal. lia.
Qed.

Lemma fold_i64_add_wrapped (l : list Z) (a : Z) :
  wrap64 a = a -> wrap64 (fold_left i64_add l a) = fold_left i64_add l a.
Proof.
  revert a. induction l as [|h t IH]; intros a Ha; simpl.
  - exact Ha.
  - apply IH. unfold i64_add. apply wrap64_idem.
Qed.

(** [np.sum] on int64 is the exact sum, wrapped once. *)
Lemma np_sum_int_wrap (l : list Z) : np_sum_int l = wrap64 (Zsum l).
Proof.
  unfold np_sum_int.
  rewrite <- fold_i64_add_wrapped by reflexivity.
  rewrite fold_i64_add. reflexivity.
Qed.

Lemma Zsum_map_wrap (f : Z -> Z) (l : list Z) :
  wrap64 (Zsum (map (fun v => wrap64 (f v)) l)) = wrap64 (Zsum (map f l)).
Proof.
  induction l as [|h t IH]; simpl.
  - reflexivity.
  - rewrite wrap64_add_l.
    rewrite <- (wrap64_add_r (f h) (Zsum (map (fun v => wrap64 (f v)) t))).
    rewrite IH, wrap64_add_r. reflexivity.
Qed.

Lemma sx_calc_wrap (x : list Z) : sx_calc x = wrap64 (exact_Sx x).
Proof. apply np_sum_int_wrap. Qed.

Lemma sxx_calc_wrap (x : list Z) : sxx_calc x = wrap64 (exact_Sxx x).
Proof.
  unfold sxx_calc, np_square_int, i64_mul, exact_Sxx.
  rewrite np_sum_int_wrap. apply Zsum_map_wrap.
Qed.

(** [Delta] as the code computes it is the exact [Delta] wrapped once. *)
Lemma Delta_wrap (x : list Z) : Delta x = wrap64 (exact_Delta x).
Proof.
  unfold Delta, i64_sub, i64_mul, exact_Delta, s_calc.
  rewrite sx_calc_wrap, sxx_calc_wrap.
  rewrite wrap64_mul, wrap64_mul_l, wrap64_sub. reflexivity.
Qed.

Lemma fits_int64_moments (x : list Z) :
  fits_int64 x ->
  sx_calc x = exact_Sx x /\ sxx_calc x = exact_Sxx x /\ Delta x = exact_Delta x.
Proof.
  intros (_ & Hx & Hxx & HD).
  rewrite sx_calc_wrap, sxx_calc_wrap, Delta_wrap.
  rewrite !wrap64_id by assumption. auto.
Qed.

(** ** The grid [1..n] *)

Lemma Zsum_app (a b : list Z) : Zsum (a ++ b) = Zsum a + Zsum b.
Proof. induction a as [|h t IH]; simpl; lia. Qed.

Lemma one_to_S (n : nat) : one_to (S n) = one_to n ++ [Z.of_nat n + 1].
Proof. unfold one_to. rewrite seq_S, map_app. reflexivity. Qed.

Lemma length_one_to (n : nat) : length (one_to n) = n.
Proof. unfold one_to. rewrite length_map, length_seq. reflexivity. Qed.

Lemma length_x_grid (n : nat) : length (x_grid n) = n.
Proof. unfold x_grid, np_arange. rewrite !length_map, length_seq. reflexivity. Qed.

(** Gauss's sum and the sum of squares, without division. *)
Lemma exact_Sx_one_to (n : nat) :
  2 * exact_Sx (one_to n) = Z.of_nat n * (Z.of_nat n + 1).
Proof.
  unfold exact_Sx. induction n as [|n IH].
  - reflexivity.
  - rewrite one_to_S, Zsum_app. simpl Zsum. lia.
Qed.

Lemma exact_Sxx_one_to (n : nat) :
  6 * exact_Sxx (one_to n) = Z.of_nat n * (Z.of_nat n + 1) * (2 * Z.of_nat n + 1).
Proof.
  unfold exact_Sxx. induction n as [|n IH].
  - reflexivity.
  - rewrite one_to_S, map_app, Zsum_app. simpl Zsum. nia.
Qed.

Lemma exact_Delta_one_to_12 (n : nat) :
  12 * exact_Delta (one_to n) = Z.of_nat n ^ 2 * (Z.of_nat n ^ 2 - 1).
Proof.
  unfold exact_Delta. rewrite length_one_to.
  pose proof (exact_Sx_one_to n) as H1. pose proof (exact_Sxx_one_to n) as H2.
  nia.
Qed.

Lemma exact_Delta_one_to (n : nat) :
  exact_Delta (one_to n) = Z.of_nat n ^ 2 * (Z.of_nat n ^ 2 - 1) / 12.
Proof.
  rewrite <- exact_Delta_one_to_12.
  rewrite Z.mul_comm, Z.div_mul by lia. reflexivity.
Qed.

Lemma x_grid_one_to (n : nat) : Z.of_nat n <= int64_max -> x_grid n = one_to n.
Proof.
  intros Hn. unfold x_grid, np_arange, one_to. rewrite map_map.
  apply map_ext_in. intros i Hi. apply in_seq in Hi.
  unfold i64_add. apply wrap64_id.
  unfold in_int64, int64_min, int64_max in *. lia.
Qed.

Lemma Npoints_max_int64 (n : nat) : (n <= Npoints_max)%nat -> Z.of_nat n <= 102569.
Proof. unfold Npoints_max. lia. Qed.

Lemma one_to_bounds (n : nat) : Forall (fun v => 1 <= v <= Z.of_nat n) (one_to n).
Proof.
  apply Forall_forall. intros v Hv. unfold one_to in Hv.
  apply in_map_iff in Hv. destruct Hv as (i & <- & Hi). apply in_seq in Hi. lia.
Qed.

(** Up to [Npoints_max] points nothing overflows on the grid. *)
Lemma fits_int64_x_grid (n : nat) : (n <= Npoints_max)%nat -> fits_int64 (x_grid n).
Proof.
  intros Hn. apply Npoints_max_int64 in Hn.
  rewrite x_grid_one_to by (unfold int64_max; lia).
  pose proof (exact_Sx_one_to n) as H1.
  pose proof (exact_Sxx_one_to n) as H2.
  pose proof (exact_Delta_one_to_12 n) as H3.
  assert (H0 : 0 <= Z.of_nat n) by lia.
  unfold fits_int64, in_int64, int64_min, int64_max. repeat split.
  - eapply Forall_impl; [|apply one_to_bounds]. simpl. intros; lia.
  - nia.
  - nia.
  - nia.
  - nia.
  - nia.
  - assert (Hm : Z.of_nat n ^ 2 <= 102569 ^ 2) by nia.
    assert (Hp : 0 <= Z.of_nat n ^ 2) by nia.
    nia.
Qed.

Lemma Delta_x_grid (n : nat) :
  Z.of_nat n <= int64_max ->
  Delta (x_grid n) = wrap64 (Z.of_nat n ^ 2 * (Z.of_nat n ^ 2 - 1) / 12).
Proof.
  intros Hn. rewrite x_grid_one_to, Delta_wrap, exact_Delta_one_to by assumption.
  reflexivity.
Qed.

(** ** Subscripting and the chi-square loop *)

Lemma length_replace_nth {A : Type} (l : list A) (i : nat) (v : A) :
  length (replace_nth l i v) = length l.
Proof.
  revert i. induction l as [|h t IH]; intros [|i]; simpl; auto.
Qed.

Lemma setitem_Ok {A : Type} (l : list A) (i : nat) (v : A) :
  (i < length l)%nat -> setitem l i v = Ok (replace_nth l i v).
Proof.
  intros H. unfold setitem. apply Nat.ltb_lt in H. rewrite H. reflexivity.
Qed.

Lemma setitem_Raise {A : Type} (l : list A) (i : nat) (v : A) :
  (length l <= i)%nat -> setitem l i v = Raise IndexError.
Proof.
  intros H. unfold setitem. apply Nat.ltb_ge in H. rewrite H. reflexivity.
Qed.

Lemma getitem_Raise {A : Type} (l : list A) (i : nat) :
  (length l <= i)%nat -> getitem l i = Raise IndexError.
Proof.
  intros H. unfold getitem. apply nth_error_None in H. rewrite H. reflexivity.
Qed.

Lemma getitem_exn {A : Type} (l : list A) (i : nat) (e : exn) :
  getitem l i = Raise e -> e = IndexError.
Proof.
  unfold getitem. destruct (nth_error l i); intros H; [discriminate|].
  injection H as <-. reflexivity.
Qed.

Lemma setitem_exn {A : Type} (l : list A) (i : nat) (v : A) (e : exn) :
  setitem l i v = Raise e -> e = IndexError.
Proof.
  unfold setitem. destruct (i <? length l)%nat; intros H; [discriminate|].
  injection H as <-. reflexivity.
Qed.

Lemma length_map2 {A B C : Type} (f : A -> B -> C) (a : list A) (b : list B) :
  length (map2 f a b) = Nat.min (length a) (length b).
Proof.
  revert b. induction a as [|u a IH]; intros [|v b]; simpl; auto.
Qed.

Section Facts.

Context {F : Type} {FO : Float64 F}.
Variable chi2_sf : F -> Z -> F.
Context {G : Type}.
Variable seed : Z -> G.
Variable gauss : G -> F * G.

(** The squared pulls of a dataset, in index order. *)
Fixpoint pulls (x : list Z) (y ey : list F) (a0 a1 : F) : list F :=
  match x, y, ey with
  | xi :: x', yi :: y', eyi :: ey' =>
      fpow2 (fdiv (fsub yi (fadd a0 (fmul a1 (of_int xi)))) eyi)
      :: pulls x' y' ey' a0 a1
  | _, _, _ => []
  end.

Lemma Chi2_loop_shift (x0 : Z) (y0 e0 : F) (x : list Z) (y ey : list F)
    (a0 a1 : F) (range : list nat) (acc : F) :
  Chi2_loop (x0 :: x) (y0 :: y) (e0 :: ey) a0 a1 (map S range) acc
  = Chi2_loop x y ey a0 a1 range acc.
Proof.
  revert acc. induction range as [|i rest IH]; intros acc; simpl.
  - reflexivity.
  - change (Chi2_term (x0 :: x) (y0 :: y) (e0 :: ey) a0 a1 (S i))
      with (Chi2_term x y ey a0 a1 i).
    destruct (Chi2_term x y ey a0 a1 i); simpl; auto.
Qed.

Lemma Chi2_loop_pulls (n : nat) (x : list Z) (y ey : list F) (a0 a1 acc : F) :
  length x = n -> length y = n -> length ey = n ->
  Chi2_loop x y ey a0 a1 (seq 0 n) acc
  = Ok (fold_left fadd (pulls x y ey a0 a1) acc).
Proof.
  revert x y ey acc. induction n as [|n IH]; intros x y ey acc Hx Hy He.
  - destruct x; [|discriminate]. reflexivity.
  - destruct x as [|x0 x]; [discriminate|].
    destruct y as [|y0 y]; [discriminate|].
    destruct ey as [|e0 ey]; [discriminate|].
    simpl in Hx, Hy, He.
    cbn [seq Chi2_loop]. rewrite <- seq_shift.
    change (Chi2_term (x0 :: x) (y0 :: y) (e0 :: ey) a0 a1 0)
      with (@Ok F (fpow2 (fdiv (fsub y0 (fadd a0 (fmul a1 (of_int x0)))) e0))).
    cbn [bind]. rewrite Chi2_loop_shift.
    rewrite IH by lia. reflexivity.
Qed.

(** On arrays of [n] elements the loop never raises; it returns the pulls
    accumulated from [0.0]. *)
Lemma Chi2_pulls (n : nat) (x : list Z) (y ey : list F) (a0 a1 : F) :
  length x = n -> length y = n -> length ey = n ->
  Chi2 n x y ey a0 a1 = Ok (fold_left fadd (pulls x y ey a0 a1) (of_int 0)).
Proof. apply Chi2_loop_pulls. Qed.

Lemma length_normal_sample (loc scale : F) (n : nat) (g : G) :
  length (fst (normal_sample gauss loc scale n g)) = n.
Proof.
  revert g. induction n as [|n IH]; intros g; simpl.
  - reflexivity.
  - destruct (gauss g) as [z g1]. specialize (IH g1).
    destruct (normal_sample gauss loc scale n g1) as [zs g2]. simpl in *. lia.
Qed.

Lemma length_y_data (a0 a1 : F) (x : list Z) (noise : list F) :
  length noise = length x -> length (y_data a0 a1 x noise) = length x.
Proof.
  intros H. unfold y_data. rewrite length_map2, length_map, H. apply Nat.min_id.
Qed.

Lemma length_ey_data (sy : F) (x : list Z) : length (ey_data sy x) = length x.
Proof. unfold ey_data, np_ones_like. rewrite !length_map. reflexivity. Qed.

(** One pseudo-experiment on [Npoints] noise values returns its record. *)
Lemma experiment_Ok (cfg : Settings F) (noise : list F) :
  length noise = Npoints cfg ->
  let x := x_grid (Npoints cfg) in
  let y := y_data (alpha0 cfg) (alpha1 cfg) x noise in
  let ey := ey_data (sigmay cfg) x in
  let m := AnalyticalLinearFit x y (sigmay cfg) in
  let c := fold_left fadd (pulls x y ey (alpha0_calc m) (alpha1_calc m)) (of_int 0) in
  experiment chi2_sf cfg noise
  = Ok {| model := m; Chi2_calc := c; Ndof_calc := Ndof (Npoints cfg);
          Prob_calc := chi2_sf c (Ndof (Npoints cfg)) |}.
Proof.
  intros Hn x y ey m c. unfold experiment, GoodnessOfFit.
  fold x. fold y. fold ey. fold m.
  rewrite Chi2_pulls.
  - reflexivity.
  - apply length_x_grid.
  - unfold y, x. rewrite length_y_data; rewrite length_x_grid; auto.
  - unfold ey, x. rewrite length_ey_data. apply length_x_grid.
Qed.

End Facts.

(** ** The closed forms of the fit *)

(** One point more than [Npoints_max]. *)
Definition Npoints_over : nat := Z.to_nat 102570.

Lemma sigma_alpha1_calc_eq {F : Type} {FO : Float64 F} (x : list Z) (y : list F) (sigma : F) :
  sigma_alpha1_calc (AnalyticalLinearFit x y sigma)
  = fmul sigma (fsqrt (fdiv (of_int (s_calc x)) (of_int (Delta x)))).
Proof. reflexivity. Qed.

Lemma sigma_alpha0_calc_eq {F : Type} {FO : Float64 F} (x : list Z) (y : list F) (sigma : F) :
  sigma_alpha0_calc (AnalyticalLinearFit x y sigma)
  = fmul sigma (fsqrt (fdiv (of_int (sxx_calc x)) (of_int (Delta x)))).
Proof. reflexivity. Qed.

Lemma Delta_Npoints_over : Delta (x_grid Npoints_over) = -9223150119427601191.
Proof.
  rewrite Delta_x_grid; unfold Npoints_over; rewrite Z2Nat.id by lia.
  - vm_compute. reflexivity.
  - unfold int64_max. lia.
Qed.

(** C1, as amended.  For every [n <= Npoints_max] (102569), every [y] and
    every [sigma], in either arithmetic, the fit on the grid [1..n] returns
    the closed forms built from the exact integer moments [S = n],
    [Sx = sum x_i], [Sxx = sum x_i^2], [Delta = Sxx * S - Sx^2] and the float
    sums [Sy], [Sxy]; and [2 Sx = n (n+1)], [6 Sxx = n (n+1) (2n+1)],
    [12 Delta = n^2 (n^2 - 1)]. *)
Theorem AnalyticalLinearFit_closed_form {F : Type} {FO : Float64 F}
    (n : nat) (y : list F) (sigma : F) :
  (n <= Npoints_max)%nat ->
  let x := one_to n in
  let S := Z.of_nat n in
  let Sx := exact_Sx x in
  let Sxx := exact_Sxx x in
  let Sy := sy_calc y in
  let Sxy := sxy_calc x y in
  let D := Sxx * S - Sx * Sx in
  AnalyticalLinearFit (x_grid n) y sigma
  = {| alpha0_calc := fdiv (fsub (fmul Sy (of_int Sxx)) (fmul Sxy (of_int Sx))) (of_int D);
       alpha1_calc := fdiv (fsub (fmul Sxy (of_int S)) (fmul Sy (of_int Sx))) (of_int D);
       sigma_alpha0_calc := fmul sigma (fsqrt (fdiv (of_int Sxx) (of_int D)));
       sigma_alpha1_calc := fmul sigma (fsqrt (fdiv (of_int S) (of_int D))) |}
  /\ 2 * Sx = S * (S + 1)
  /\ 6 * Sxx = S * (S + 1) * (2 * S + 1)
  /\ 12 * D = S ^ 2 * (S ^ 2 - 1).
Proof.
  intros Hn x S Sx Sxx Sy Sxy D.
  pose proof (fits_int64_x_grid n Hn) as Hfit.
  apply fits_int64_moments in Hfit. destruct Hfit as (H1 & H2 & H3).
  assert (Hx : x_grid n = x).
  { apply x_grid_one_to. apply Npoints_max_int64 in Hn. unfold int64_max. lia. }
  split; [|split; [|split]].
  - unfold AnalyticalLinearFit. rewrite H1, H2, H3.
    unfold s_calc. rewrite length_x_grid.
    unfold exact_Delta. rewrite Hx.
    replace (length x) with n by (symmetry; apply length_one_to).
    reflexivity.
  - apply exact_Sx_one_to.
  - apply exact_Sxx_one_to.
  - pose proof (exact_Delta_one_to_12 n) as H. unfold exact_Delta in H.
    rewrite length_one_to in H. exact H.
Qed.

Lemma AnalyticalLinearFit_closed_form_witness :
  (3 <= Npoints_max)%nat
  /\ AnalyticalLinearFit (x_grid 3) [4%float; 5%float; 6%float] 1%float
     = {| alpha0_calc := 3%float; alpha1_calc := 1%float;
          sigma_alpha0_calc := PrimFloat.sqrt (14 / 6)%float;
          sigma_alpha1_calc := PrimFloat.sqrt (3 / 6)%float |}.
Proof.
  split.
  - unfold Npoints_max. lia.
  - pose proof (AnalyticalLinearFit_closed_form 3 [4%float; 5%float; 6%float] 1%float
                  ltac:(unfold Npoints_max; lia)) as H.
    destruct H as [H _]. rewrite H. vm_compute. reflexivity.
Defined.

(** At 102570 points the code's [Delta] has wrapped to a negative number:
    the fit returns [nan] for [sigma_alpha1_calc], the closed form does not. *)
Lemma closed_form_fails_at_Npoints_over :
  PrimFloat.is_nan
    (sigma_alpha1_calc
       (AnalyticalLinearFit (x_grid Npoints_over) (repeat 1%float Npoints_over) 1%float))
  = true
  /\ PrimFloat.is_nan
       (fmul 1%float
          (fsqrt (fdiv (of_int 102570) (of_int (102570 ^ 2 * (102570 ^ 2 - 1) / 12)))))
     = false
  /\ 12 * exact_Delta (one_to Npoints_over) = 102570 ^ 2 * (102570 ^ 2 - 1).
Proof.
  split; [|split].
  - rewrite sigma_alpha1_calc_eq, Delta_Npoints_over.
    unfold s_calc. rewrite length_x_grid. unfold Npoints_over.
    rewrite Z2Nat.id by lia. vm_compute. reflexivity.
  - vm_compute. reflexivity.
  - rewrite exact_Delta_one_to_12. unfold Npoints_over.
    rewrite Z2Nat.id by lia. reflexivity.
Qed.

(** C9, as amended.  For [2 <= n <= Npoints_max] the code's [Delta] on the
    grid [1..n] is [n^2 (n^2 - 1) / 12] and strictly positive, so is [sxx],
    and in exact arithmetic the divisor is not zero and both radicands are
    strictly positive. *)
Theorem Delta_x_grid_positive (n : nat) :
  (2 <= n <= Npoints_max)%nat ->
  let x := x_grid n in
  Delta x = Z.of_nat n ^ 2 * (Z.of_nat n ^ 2 - 1) / 12
  /\ 0 < Delta x
  /\ 0 < sxx_calc x
  /\ (@of_int R exact (Delta x) <> 0)%R
  /\ (0 < fdiv (of_int (sxx_calc x)) (of_int (Delta x)))%R
  /\ (0 < fdiv (of_int (s_calc x)) (of_int (Delta x)))%R.
Proof.
  intros [H2 Hn] x.
  pose proof (fits_int64_x_grid n Hn) as Hfit.
  apply fits_int64_moments in Hfit. destruct Hfit as (_ & Hxx & HD).
  pose proof (Npoints_max_int64 n Hn) as Hn'.
  assert (Hx : x_grid n = one_to n) by (apply x_grid_one_to; unfold int64_max; lia).
  assert (HD12 : 12 * Delta x = Z.of_nat n ^ 2 * (Z.of_nat n ^ 2 - 1)).
  { unfold x. rewrite HD, Hx. apply exact_Delta_one_to_12. }
  assert (Hxx6 : 6 * sxx_calc x = Z.of_nat n * (Z.of_nat n + 1) * (2 * Z.of_nat n + 1)).
  { unfold x. rewrite Hxx, Hx. apply exact_Sxx_one_to. }
  assert (HDpos : 0 < Delta x) by nia.
  assert (Hxxpos : 0 < sxx_calc x) by nia.
  assert (Hs : s_calc x = Z.of_nat n) by (unfold s_calc, x; rewrite length_x_grid; reflexivity).
  repeat split.
  - unfold x. rewrite HD, Hx. apply exact_Delta_one_to.
  - exact HDpos.
  - exact Hxxpos.
  - simpl. apply not_0_IZR. lia.
  - simpl. apply Rdiv_lt_0_compat; apply IZR_lt; lia.
  - simpl. rewrite Hs. apply Rdiv_lt_0_compat; apply IZR_lt; lia.
Qed.

Lemma Delta_x_grid_positive_witness :
  (2 <= 9 <= Npoints_max)%nat /\ Delta (x_grid 9) = 540.
Proof.
  assert (H : (2 <= 9 <= Npoints_max)%nat) by (unfold Npoints_max; lia).
  split.
  - exact H.
  - destruct (Delta_x_grid_positive 9 H) as [HD _]. rewrite HD. reflexivity.
Defined.

(** At 102570 points [n^2 (n^2 - 1) / 12] exceeds [2^63 - 1] and the code's
    [Delta] is negative. *)
Lemma Delta_negative_at_Npoints_over :
  (2 <= Npoints_over)%nat
  /\ Delta (x_grid Npoints_over) = -9223150119427601191
  /\ Z.of_nat Npoints_over ^ 2 * (Z.of_nat Npoints_over ^ 2 - 1) / 12
     = 9223593954281950425.
Proof.
  split; [|split].
  - unfold Npoints_over. lia.
  - exact Delta_Npoints_over.
  - unfold Npoints_over. rewrite Z2Nat.id by lia. vm_compute. reflexivity.
Qed.

(** ** The loop over pseudo-experiments *)

Lemma replace_nth_app {A : Type} (pre rest : list A) (z v : A) :
  replace_nth (pre ++ z :: rest) (length pre) v = pre ++ v :: rest.
Proof. induction pre as [|h t IH]; simpl; [reflexivity | rewrite IH; reflexivity]. Qed.

Section LoopFacts.

Context {F : Type} {FO : Float64 F}.
Variable chi2_sf : F -> Z -> F.
Context {G : Type}.
Variable seed : Z -> G.
Variable gauss : G -> F * G.
Variable cfg : Settings F.
Variable g0 : G.

(** [r.normal] accepts the scale. *)
Hypothesis sigmay_accepted : signbit (sigmay cfg) = false.

(** The record one pseudo-experiment computes from its noise values. *)
Definition result_of (noise : list F) : FitResult F :=
  let x := x_grid (Npoints cfg) in
  let y := y_data (alpha0 cfg) (alpha1 cfg) x noise in
  let ey := ey_data (sigmay cfg) x in
  let m := AnalyticalLinearFit x y (sigmay cfg) in
  let c := fold_left fadd (pulls x y ey (alpha0_calc m) (alpha1_calc m)) (of_int 0) in
  {| model := m; Chi2_calc := c; Ndof_calc := Ndof (Npoints cfg);
     Prob_calc := chi2_sf c (Ndof (Npoints cfg)) |}.

(** The generator after [k] datasets have been drawn, starting from [g0]. *)
Fixpoint rng_after (k : nat) : G :=
  match k with
  | O => g0
  | S k' => snd (normal_sample gauss (of_int 0) (sigmay cfg) (Npoints cfg) (rng_after k'))
  end.

(** The noise of dataset [k] and what is computed from it. *)
Definition noise_of (k : nat) : list F :=
  fst (normal_sample gauss (of_int 0) (sigmay cfg) (Npoints cfg) (rng_after k)).
Definition kth_result (k : nat) : FitResult F := result_of (noise_of k).

Definition filled (f : FitResult F -> F) (k : nat) : list F :=
  map (fun i => f (kth_result i)) (seq 0 k) ++ np_zeros (Nexp cfg - k).

(** The loop state when [k] pseudo-experiments are done. *)
Definition state_at (k : nat) : Loop :=
  {| rng := rng_after k;
     arrays := {| array_alpha0 := filled (fun r => alpha0_calc (model r)) k;
                  array_alpha1 := filled (fun r => alpha1_calc (model r)) k;
                  array_Chi2 := filled Chi2_calc k;
                  array_Prob := filled Prob_calc k |};
     printed := map (fun i => (model (kth_result i), Prob_calc (kth_result i)))
                    (seq 0 (Nat.min k 10)) |}.

Lemma experiment_result_of (noise : list F) :
  length noise = Npoints cfg -> experiment chi2_sf cfg noise = Ok (result_of noise).
Proof. intros H. apply (experiment_Ok chi2_sf cfg noise H). Qed.

Lemma setitem_filled (f : FitResult F -> F) (k : nat) :
  (k < Nexp cfg)%nat ->
  setitem (filled f k) k (f (kth_result k)) = Ok (filled f (S k)).
Proof.
  intros Hk. unfold filled.
  assert (Hlen : length (map (fun i => f (kth_result i)) (seq 0 k)) = k)
    by (rewrite length_map, length_seq; reflexivity).
  replace (Nexp cfg - k)%nat with (S (Nexp cfg - S k)) by lia.
  cbn [np_zeros repeat].
  rewrite setitem_Ok.
  - pose proof (replace_nth_app (map (fun i => f (kth_result i)) (seq 0 k))
                  (repeat (of_int 0) (Nexp cfg - S k)) (of_int 0) (f (kth_result k))) as E.
    rewrite Hlen in E. rewrite E.
    rewrite seq_S, map_app, <- app_assoc. reflexivity.
  - rewrite length_app, Hlen. simpl. lia.
Qed.

Lemma iteration_state_at (k : nat) :
  (k < Nexp cfg)%nat -> iteration chi2_sf gauss cfg k (state_at k) = Ok (state_at (S k)).
Proof.
  intros Hk. unfold iteration, normal. rewrite sigmay_accepted.
  cbn [bind rng state_at].
  pose proof (length_normal_sample gauss (of_int 0) (sigmay cfg) (Npoints cfg) (rng_after k)) as Hlen.
  change (rng_after (S k))
    with (snd (normal_sample gauss (of_int 0) (sigmay cfg) (Npoints cfg) (rng_after k))).
  fold (noise_of k) in Hlen.
  assert (Hn : normal_sample gauss (of_int 0) (sigmay cfg) (Npoints cfg) (rng_after k)
               = (noise_of k, snd (normal_sample gauss (of_int 0) (sigmay cfg) (Npoints cfg) (rng_after k))))
    by (unfold noise_of; apply surjective_pairing).
  rewrite Hn at 1.
  rewrite (experiment_result_of _ Hlen). cbn [bind arrays array_alpha0 array_alpha1 array_Chi2 array_Prob printed].
  fold (kth_result k).
  change (array_alpha0 (arrays (state_at k)))
    with (filled (fun r => alpha0_calc (model r)) k).
  change (array_alpha1 (arrays (state_at k)))
    with (filled (fun r => alpha1_calc (model r)) k).
  change (array_Chi2 (arrays (state_at k))) with (filled Chi2_calc k).
  change (array_Prob (arrays (state_at k))) with (filled Prob_calc k).
  change (printed (state_at k))
    with (map (fun i => (model (kth_result i), Prob_calc (kth_result i)))
              (seq 0 (Nat.min k 10))).
  rewrite (setitem_filled (fun r => alpha0_calc (model r)) k Hk). cbn [bind].
  rewrite (setitem_filled (fun r => alpha1_calc (model r)) k Hk). cbn [bind].
  rewrite (setitem_filled Chi2_calc k Hk). cbn [bind].
  rewrite (setitem_filled Prob_calc k Hk). cbn [bind].
  unfold state_at. f_equal. f_equal.
  destruct (Nat.ltb_spec k 10) as [H10|H10].
  - replace (Nat.min (S k) 10) with (S k) by lia.
    replace (Nat.min k 10) with k by lia.
    rewrite seq_S, map_app. reflexivity.
  - replace (Nat.min (S k) 10) with 10%nat by lia.
    replace (Nat.min k 10) with 10%nat by lia. reflexivity.
Qed.

Lemma iterations_state_at (m k : nat) :
  (k + m <= Nexp cfg)%nat ->
  iterations chi2_sf gauss cfg (seq k m) (state_at k) = Ok (state_at (k + m)).
Proof.
  revert k. induction m as [|m IH]; intros k Hk.
  - rewrite Nat.add_0_r. reflexivity.
  - cbn [seq iterations]. rewrite iteration_state_at by lia. cbn [bind].
    rewrite IH by lia. f_equal. f_equal. lia.
Qed.

Lemma start_state_at : start cfg g0 = state_at 0.
Proof.
  unfold start, state_at, filled. cbn [seq map app Nat.min rng_after].
  rewrite Nat.sub_0_r. reflexivity.
Qed.

(** The loop never raises and ends in the state described by [state_at]. *)
Lemma Repeater_state_at : Repeater chi2_sf gauss cfg g0 = Ok (state_at (Nexp cfg)).
Proof.
  unfold Repeater. rewrite start_state_at.
  apply (iterations_state_at (Nexp cfg) 0). lia.
Qed.


End LoopFacts.

(** ** What the fit and the evaluation return *)

Lemma exact_Sx_repeat (c : Z) (n : nat) : exact_Sx (repeat c n) = Z.of_nat n * c.
Proof.
  unfold exact_Sx. induction n as [|n IH]; [reflexivity|].
  change (Zsum (repeat c (S n))) with (c + Zsum (repeat c n)).
  rewrite IH. lia.
Qed.

Lemma exact_Sxx_repeat (c : Z) (n : nat) : exact_Sxx (repeat c n) = Z.of_nat n * (c * c).
Proof.
  unfold exact_Sxx. induction n as [|n IH]; [reflexivity|].
  change (Zsum (map (fun v => v * v) (repeat c (S n))))
    with (c * c + Zsum (map (fun v => v * v) (repeat c n))).
  rewrite IH. lia.
Qed.

(** When all [x] are one value [Delta] is zero, wrap-around or not. *)
Lemma Delta_repeat (c : Z) (n : nat) : Delta (repeat c n) = 0.
Proof.
  rewrite Delta_wrap. unfold exact_Delta.
  rewrite exact_Sx_repeat, exact_Sxx_repeat, repeat_length.
  replace (Z.of_nat n * (c * c) * Z.of_nat n - Z.of_nat n * c * (Z.of_nat n * c)) with 0 by ring.
  reflexivity.
Qed.

Section Returns.

Context {F : Type} {FO : Float64 F}.
Variable chi2_sf : F -> Z -> F.
Context {G : Type}.
Variable seed : Z -> G.
Variable gauss : G -> F * G.

Lemma GoodnessOfFit_Ok (n : nat) (x : list Z) (y ey : list F) (m : LinearModel F) :
  length x = n -> length y = n -> length ey = n ->
  let c := fold_left fadd (pulls x y ey (alpha0_calc m) (alpha1_calc m)) (of_int 0) in
  GoodnessOfFit chi2_sf n x y ey m
  = Ok {| model := m; Chi2_calc := c; Ndof_calc := Ndof n;
          Prob_calc := chi2_sf c (Ndof n) |}.
Proof.
  intros Hx Hy He c. unfold GoodnessOfFit.
  rewrite Chi2_pulls by assumption. reflexivity.
Qed.

(** C7.  For every dataset of [n] observations, the evaluation of the
    two-parameter fit returns a record, and its number of degrees of freedom
    is [n - 2]. *)
Theorem Ndof_calc_is_Npoints_minus_2 (n : nat) (x : list Z) (y ey : list F) (sigma : F) :
  length x = n -> length y = n -> length ey = n ->
  exists r,
    GoodnessOfFit chi2_sf n x y ey (AnalyticalLinearFit x y sigma) = Ok r
    /\ Ndof_calc r = Z.of_nat n - 2.
Proof.
  intros Hx Hy He. eexists. split.
  - apply GoodnessOfFit_Ok; assumption.
  - reflexivity.
Qed.

(** C3, as amended.  When [Delta] is zero the fit does not fail: the fit
    and its evaluation return a record, whose parameters are the quotients
    by a zero divisor and whose uncertainties are [sigma] times the square
    root of such a quotient ([nan] or infinite in binary64). *)
Theorem Delta_zero_returns (n : nat) (x : list Z) (y ey : list F) (sigma : F) :
  length x = n -> length y = n -> length ey = n ->
  Delta x = 0 ->
  exists r,
    GoodnessOfFit chi2_sf n x y ey (AnalyticalLinearFit x y sigma) = Ok r
    /\ alpha0_calc (model r)
       = fdiv (fsub (fmul (sy_calc y) (of_int (sxx_calc x)))
                    (fmul (sxy_calc x y) (of_int (sx_calc x)))) (of_int 0)
    /\ alpha1_calc (model r)
       = fdiv (fsub (fmul (sxy_calc x y) (of_int (s_calc x)))
                    (fmul (sy_calc y) (of_int (sx_calc x)))) (of_int 0)
    /\ sigma_alpha0_calc (model r)
       = fmul sigma (fsqrt (fdiv (of_int (sxx_calc x)) (of_int 0)))
    /\ sigma_alpha1_calc (model r)
       = fmul sigma (fsqrt (fdiv (of_int (s_calc x)) (of_int 0))).
Proof.
  intros Hx Hy He HD. eexists. split.
  - apply GoodnessOfFit_Ok; assumption.
  - cbn [model]. unfold AnalyticalLinearFit.
    cbn [alpha0_calc alpha1_calc sigma_alpha0_calc sigma_alpha1_calc].
    rewrite HD. repeat split.
Qed.

(** C4, as amended.  With two points or fewer the evaluation does not fail:
    the pseudo-experiment returns a record whose number of degrees of freedom
    is [Npoints - 2], zero or negative, and whose probability is whatever
    the chi-square survival function returns there. *)
Theorem few_points_return (cfg : Settings F) (noise : list F) :
  length noise = Npoints cfg ->
  (Npoints cfg <= 2)%nat ->
  exists r,
    experiment chi2_sf cfg noise = Ok r
    /\ Ndof_calc r = Z.of_nat (Npoints cfg) - 2
    /\ Ndof_calc r <= 0
    /\ Prob_calc r = chi2_sf (Chi2_calc r) (Ndof_calc r).
Proof.
  intros Hlen Hn. eexists. split.
  - apply (experiment_Ok chi2_sf cfg noise Hlen).
  - cbn [Ndof_calc Prob_calc Chi2_calc]. unfold Ndof, Nvar. repeat split. lia.
Qed.


(** C10.  The two uncertainties of a fit are the same whatever [y] is.  In a
    batch whose scale [r.normal] accepts, the loop returns, it has printed
    [min(Nexp, 10)] lines, every printed line shows the uncertainties fixed
    by [Npoints] and [sigmay], and so does the fit of every dataset of the
    batch, whatever noise it drew. *)
Theorem uncertainties_do_not_depend_on_y
    (x : list Z) (y1 y2 : list F) (sigma : F) (cfg : Settings F) (g : G) :
  sigma_alpha0_calc (AnalyticalLinearFit x y1 sigma)
  = sigma_alpha0_calc (AnalyticalLinearFit x y2 sigma)
  /\ sigma_alpha1_calc (AnalyticalLinearFit x y1 sigma)
     = sigma_alpha1_calc (AnalyticalLinearFit x y2 sigma)
  /\ (signbit (sigmay cfg) = false ->
      let xs := x_grid (Npoints cfg) in
      let u0 := fmul (sigmay cfg) (fsqrt (fdiv (of_int (sxx_calc xs)) (of_int (Delta xs)))) in
      let u1 := fmul (sigmay cfg) (fsqrt (fdiv (of_int (s_calc xs)) (of_int (Delta xs)))) in
      exists st,
        Repeater chi2_sf gauss cfg g = Ok st
        /\ length (printed st) = Nat.min (Nexp cfg) 10
        /\ (forall i, (i < Nat.min (Nexp cfg) 10)%nat ->
            exists row,
              nth_error (printed st) i = Some row
              /\ sigma_alpha0_calc (fst row) = u0
              /\ sigma_alpha1_calc (fst row) = u1)
        /\ (forall k, (k < Nexp cfg)%nat ->
            exists r,
              experiment chi2_sf cfg (noise_of gauss cfg g k) = Ok r
              /\ sigma_alpha0_calc (model r) = u0
              /\ sigma_alpha1_calc (model r) = u1)).
Proof.
  split; [reflexivity|]. split; [reflexivity|].
  intros Hs xs u0 u1.
  exists (state_at chi2_sf gauss cfg g (Nexp cfg)).
  split; [apply Repeater_state_at; exact Hs|].
  cbn [printed state_at]. rewrite length_map, length_seq.
  split; [reflexivity|]. split.
  - intros i Hi.
    exists (model (kth_result chi2_sf gauss cfg g i), Prob_calc (kth_result chi2_sf gauss cfg g i)).
    split; [|split; reflexivity].
    rewrite (nth_error_map _ i (seq 0 (Nat.min (Nexp cfg) 10))).
    rewrite (nth_error_nth' _ 0%nat) by (rewrite length_seq; assumption).
    rewrite seq_nth by assumption. reflexivity.
  - intros k Hk. exists (kth_result chi2_sf gauss cfg g k). split.
    + apply experiment_result_of. apply length_normal_sample.
    + split; reflexivity.
Qed.

End Returns.

(** ** What binary64 does at the edges *)

Definition one_point : Settings float :=
  {| Nexp := 1; Npoints := 1; alpha0 := 3.5%float; alpha1 := 0.25%float; sigmay := 1%float |}.

Definition two_points : Settings float :=
  {| Nexp := 1; Npoints := 2; alpha0 := 3.5%float; alpha1 := 0.25%float; sigmay := 1%float |}.

Lemma Ndof_calc_is_Npoints_minus_2_witness :
  length [1; 2; 3] = 3%nat
  /\ length [4%float; 5%float; 7%float] = 3%nat
  /\ length [1%float; 1%float; 1%float] = 3%nat
  /\ forall sf : float -> Z -> float,
       exists r,
         GoodnessOfFit sf 3 [1; 2; 3] [4%float; 5%float; 7%float] [1%float; 1%float; 1%float]
           (AnalyticalLinearFit [1; 2; 3] [4%float; 5%float; 7%float] 1%float) = Ok r
         /\ Ndof_calc r = Z.of_nat 3 - 2.
Proof.
  repeat split.
  intros sf.
  apply (Ndof_calc_is_Npoints_minus_2 sf 3 [1; 2; 3] [4%float; 5%float; 7%float]
           [1%float; 1%float; 1%float] 1%float); reflexivity.
Defined.

Lemma Delta_zero_returns_witness :
  Delta [2; 2; 2] = 0
  /\ forall sf : float -> Z -> float,
       exists r,
         GoodnessOfFit sf 3 [2; 2; 2] [1%float; 2%float; 3%float] [1%float; 1%float; 1%float]
           (AnalyticalLinearFit [2; 2; 2] [1%float; 2%float; 3%float] 1%float) = Ok r
         /\ PrimFloat.is_nan (alpha0_calc (model r)) = true
         /\ PrimFloat.is_nan (alpha1_calc (model r)) = true
         /\ sigma_alpha0_calc (model r) = infinity
         /\ sigma_alpha1_calc (model r) = infinity.
Proof.
  split; [reflexivity|]. intros sf.
  destruct (Delta_zero_returns sf 3 [2; 2; 2] [1%float; 2%float; 3%float]
              [1%float; 1%float; 1%float] 1%float
              eq_refl eq_refl eq_refl eq_refl) as (r & Hr & H0 & H1 & H2 & H3).
  exists r. split; [exact Hr|].
  rewrite H0, H1, H2, H3. vm_compute. repeat split.
Defined.

(** One point: [Delta] is zero, nothing is raised, the parameters are [nan]. *)
Lemma one_point_is_not_an_error :
  Delta (x_grid (Npoints one_point)) = 0
  /\ AnalyticalLinearFit (x_grid 1) [4%float] 1%float
     = {| alpha0_calc := nan; alpha1_calc := nan;
          sigma_alpha0_calc := infinity; sigma_alpha1_calc := infinity |}
  /\ forall sf : float -> Z -> float,
       experiment sf one_point [0.25%float]
       = Ok {| model := {| alpha0_calc := nan; alpha1_calc := nan;
                           sigma_alpha0_calc := infinity; sigma_alpha1_calc := infinity |};
               Chi2_calc := nan; Ndof_calc := -1; Prob_calc := sf nan (-1) |}.
Proof.
  split; [reflexivity|]. split; [vm_compute; reflexivity|].
  intros sf. vm_compute. reflexivity.
Qed.

Lemma few_points_return_witness :
  length [0.25%float; (-0.5)%float] = Npoints two_points
  /\ (Npoints two_points <= 2)%nat
  /\ forall sf : float -> Z -> float,
       exists r,
         experiment sf two_points [0.25%float; (-0.5)%float] = Ok r
         /\ Ndof_calc r = Z.of_nat (Npoints two_points) - 2
         /\ Ndof_calc r <= 0
         /\ Prob_calc r = sf (Chi2_calc r) (Ndof_calc r).
Proof.
  split; [reflexivity|]. split; [simpl; lia|]. intros sf.
  apply (few_points_return sf two_points [0.25%float; (-0.5)%float]).
  - reflexivity.
  - simpl. lia.
Defined.

(** Two points: nothing is raised, the record has zero degrees of freedom. *)
Lemma two_points_is_not_an_error :
  Ndof (Npoints two_points) = 0
  /\ forall sf : float -> Z -> float,
       experiment sf two_points [0.25%float; (-0.5)%float]
       = Ok {| model := {| alpha0_calc := 4.5%float; alpha1_calc := (-0.5)%float;
                           sigma_alpha0_calc := PrimFloat.sqrt 5%float;
                           sigma_alpha1_calc := PrimFloat.sqrt 2%float |};
               Chi2_calc := 0%float; Ndof_calc := 0; Prob_calc := sf 0%float 0 |}.
Proof.
  split; [reflexivity|]. intros sf. vm_compute. reflexivity.
Qed.

(** ** Exact arithmetic: least squares *)

Section ExactArithmetic.

Local Open Scope R_scope.

Definition Rsum (l : list R) : R := fold_right Rplus 0 l.

(** The moments of a dataset over the reals. *)
Definition SX (x : list Z) : R := Rsum (map IZR x).
Definition SXX (x : list Z) : R := Rsum (map (fun v => IZR v * IZR v) x).
Definition SY (y : list R) : R := Rsum y.
Definition SXY (x : list Z) (y : list R) : R := Rsum (map2 (fun xi yi => IZR xi * yi) x y).

(** The sum of squared residuals about the line [a0 + a1 x]. *)
Fixpoint Q (x : list Z) (y : list R) (a0 a1 : R) : R :=
  match x, y with
  | xi :: x', yi :: y' =>
      (yi - (a0 + a1 * IZR xi)) * (yi - (a0 + a1 * IZR xi)) + Q x' y' a0 a1
  | _, _ => 0
  end.

Lemma fold_left_Rplus (l : list R) (a : R) : fold_left Rplus l a = a + Rsum l.
Proof.
  revert a. induction l as [|h t IH]; intros a; simpl.
  - ring.
  - rewrite IH. ring.
Qed.

Lemma Rsum_app (a b : list R) : Rsum (a ++ b) = Rsum a + Rsum b.
Proof.
  unfold Rsum. induction a as [|h t IH]; cbn [app fold_right]; [ring|].
  rewrite IH. ring.
Qed.

Lemma Rsum_firstn_skipn (n : nat) (l : list R) :
  Rsum (firstn n l) + Rsum (skipn n l) = Rsum l.
Proof. rewrite <- Rsum_app, firstn_skipn. reflexivity. Qed.

Lemma Rsum_map2_plus (a b : list R) :
  length a = length b -> Rsum (map2 Rplus a b) = Rsum a + Rsum b.
Proof.
  unfold Rsum. revert b. induction a as [|u a IH]; intros [|v b] H; try discriminate.
  - cbn. ring.
  - simpl in H. cbn [map2 fold_right]. rewrite IH by lia. ring.
Qed.

Lemma tree8_exact (r : list R) : length r = 8%nat -> tree8 r = Rsum r.
Proof.
  intros H.
  do 8 (destruct r as [|? r]; [discriminate|]).
  destruct r; [|discriminate].
  unfold tree8, Rsum. cbn [fadd exact fold_right]. ring.
Qed.

Lemma add_groups_exact (k : nat) (r rest : list R) :
  length r = 8%nat -> (8 * k <= length rest)%nat ->
  length (fst (add_groups k r rest)) = 8%nat
  /\ Rsum (fst (add_groups k r rest)) + Rsum (snd (add_groups k r rest))
     = Rsum r + Rsum rest.
Proof.
  revert r rest. induction k as [|k IH]; intros r rest Hr Hk.
  - cbn. split; [exact Hr|reflexivity].
  - cbn [add_groups].
    assert (Hf : length (firstn 8 rest) = 8%nat) by (apply firstn_length_le; lia).
    destruct (IH (map2 fadd r (firstn 8 rest)) (skipn 8 rest)) as [H1 H2].
    + rewrite length_map2, Hr, Hf. reflexivity.
    + rewrite length_skipn. lia.
    + split; [exact H1|]. rewrite H2.
      cbn [fadd exact]. rewrite Rsum_map2_plus by congruence.
      rewrite <- (Rsum_firstn_skipn 8 rest). ring.
Qed.

Lemma block_sum_exact (l : list R) : (8 <= length l)%nat -> block_sum l = Rsum l.
Proof.
  intros H. unfold block_sum.
  assert (Hf : length (firstn 8 l) = 8%nat) by (apply firstn_length_le; exact H).
  assert (Hk : (8 * (length l / 8 - 1) <= length (skipn 8 l))%nat).
  { rewrite length_skipn. pose proof (Nat.Div0.mul_div_le (length l) 8). lia. }
  destruct (add_groups_exact _ _ _ Hf Hk) as [H1 H2].
  destruct (add_groups (length l / 8 - 1) (firstn 8 l) (skipn 8 l)) as [r rest].
  cbn [fst snd] in H1, H2.
  cbn [fadd exact]. rewrite fold_left_Rplus, tree8_exact by exact H1.
  rewrite H2. apply Rsum_firstn_skipn.
Qed.

Lemma pairwise_sum_exact (depth : nat) (l : list R) : pairwise_sum depth l = Rsum l.
Proof.
  revert l. induction depth as [|d IH]; intros l; cbn [pairwise_sum];
    destruct (Nat.ltb_spec (length l) 8) as [H8|H8].
  - cbn [fadd of_int exact]. rewrite fold_left_Rplus. ring.
  - destruct (length l <=? 128)%nat; apply block_sum_exact; exact H8.
  - cbn [fadd of_int exact]. rewrite fold_left_Rplus. ring.
  - destruct (length l <=? 128)%nat; [apply block_sum_exact; exact H8|].
    rewrite !IH. cbn [fadd exact]. apply Rsum_firstn_skipn.
Qed.

Lemma np_sum_exact (l : list R) : np_sum l = Rsum l.
Proof.
  unfold np_sum. rewrite pairwise_sum_exact. cbn [fadd of_int exact]. ring.
Qed.

Lemma sy_calc_exact (y : list R) : sy_calc y = SY y.
Proof. apply np_sum_exact. Qed.

Lemma sxy_calc_exact (x : list Z) (y : list R) : sxy_calc x y = SXY x y.
Proof. unfold sxy_calc. rewrite np_sum_exact. reflexivity. Qed.

Lemma IZR_exact_Sx (x : list Z) : IZR (exact_Sx x) = SX x.
Proof.
  unfold exact_Sx, SX. induction x as [|h t IH].
  - reflexivity.
  - change (Zsum (h :: t)) with (h + Zsum t)%Z.
    rewrite plus_IZR, IH. reflexivity.
Qed.

Lemma IZR_exact_Sxx (x : list Z) : IZR (exact_Sxx x) = SXX x.
Proof.
  unfold exact_Sxx, SXX. induction x as [|h t IH].
  - reflexivity.
  - change (Zsum (map (fun v => v * v)%Z (h :: t)))
      with (h * h + Zsum (map (fun v => v * v)%Z t))%Z.
    rewrite plus_IZR, mult_IZR, IH. reflexivity.
Qed.

Lemma IZR_exact_Delta (x : list Z) :
  IZR (exact_Delta x) = SXX x * IZR (Z.of_nat (length x)) - SX x * SX x.
Proof.
  unfold exact_Delta. rewrite minus_IZR, !mult_IZR, IZR_exact_Sx, IZR_exact_Sxx.
  reflexivity.
Qed.

(** The chi-square of the loop, with [ey = sigma * 1], is [Q / sigma^2]. *)
Lemma pulls_exact (x : list Z) (y : list R) (sigma a0 a1 acc : R) :
  length y = length x ->
  fold_left fadd (pulls x y (ey_data sigma x) a0 a1) acc
  = acc + Q x y a0 a1 * (/ sigma * / sigma).
Proof.
  revert y acc. induction x as [|xi x IH]; intros [|yi y] acc Hlen;
    try discriminate; simpl in Hlen.
  - simpl. ring.
  - change (ey_data sigma (xi :: x)) with (fmul sigma (of_int 1%Z) :: ey_data sigma x).
    cbn [pulls fold_left Q]. rewrite IH by lia.
    cbn [fadd fsub fmul fdiv fpow2 of_int exact].
    unfold Rdiv. rewrite Rmult_1_r. ring.
Qed.

Lemma Chi2_exact (x : list Z) (y : list R) (sigma a0 a1 : R) :
  length y = length x ->
  Chi2 (length x) x y (ey_data sigma x) a0 a1 = Ok (Q x y a0 a1 * (/ sigma * / sigma)).
Proof.
  intros Hlen. rewrite Chi2_pulls; try reflexivity; auto.
  - rewrite pulls_exact by assumption. cbn [of_int exact]. f_equal. ring.
  - apply length_ey_data.
Qed.

(** Sums of residuals, of residuals weighted by [x], and of squared
    displacements of the line. *)
Fixpoint R1 (x : list Z) (y : list R) (a0 a1 : R) : R :=
  match x, y with
  | xi :: x', yi :: y' => (yi - (a0 + a1 * IZR xi)) + R1 x' y' a0 a1
  | _, _ => 0
  end.

Fixpoint R2 (x : list Z) (y : list R) (a0 a1 : R) : R :=
  match x, y with
  | xi :: x', yi :: y' => IZR xi * (yi - (a0 + a1 * IZR xi)) + R2 x' y' a0 a1
  | _, _ => 0
  end.

Fixpoint P (x : list Z) (d0 d1 : R) : R :=
  match x with
  | xi :: x' => (d0 + d1 * IZR xi) * (d0 + d1 * IZR xi) + P x' d0 d1
  | [] => 0
  end.

Lemma P_nonneg (x : list Z) (d0 d1 : R) : 0 <= P x d0 d1.
Proof.
  induction x as [|xi x IH]; simpl.
  - lra.
  - pose proof (Rle_0_sqr (d0 + d1 * IZR xi)) as H. unfold Rsqr in H. lra.
Qed.

Lemma Q_decompose (x : list Z) (y : list R) (a0 a1 b0 b1 : R) :
  length y = length x ->
  Q x y b0 b1
  = Q x y a0 a1 + 2 * (a0 - b0) * R1 x y a0 a1 + 2 * (a1 - b1) * R2 x y a0 a1
    + P x (a0 - b0) (a1 - b1).
Proof.
  revert y. induction x as [|xi x IH]; intros [|yi y] Hlen; try discriminate; simpl.
  - ring.
  - simpl in Hlen. rewrite IH by lia. ring.
Qed.

Lemma R1_moments (x : list Z) (y : list R) (a0 a1 : R) :
  length y = length x ->
  R1 x y a0 a1 = SY y - IZR (Z.of_nat (length x)) * a0 - a1 * SX x.
Proof.
  unfold SY, SX.
  revert y. induction x as [|xi x IH]; intros [|yi y] Hlen; try discriminate.
  - simpl. ring.
  - simpl in Hlen. cbn [R1 Rsum map fold_right length]. rewrite IH by lia.
    rewrite Nat2Z.inj_succ, succ_IZR. unfold Rsum. ring.
Qed.

Lemma R2_moments (x : list Z) (y : list R) (a0 a1 : R) :
  length y = length x ->
  R2 x y a0 a1 = SXY x y - a0 * SX x - a1 * SXX x.
Proof.
  unfold SXY, SX, SXX.
  revert y. induction x as [|xi x IH]; intros [|yi y] Hlen; try discriminate.
  - simpl. ring.
  - simpl in Hlen. cbn [R2 Rsum map map2 fold_right]. rewrite IH by lia.
    unfold Rsum. ring.
Qed.

End ExactArithmetic.

(** On the grid, within [Npoints_max], [Delta] is strictly positive. *)
Lemma Delta_x_grid_pos (n : nat) :
  (2 <= n <= Npoints_max)%nat -> 0 < Delta (x_grid n).
Proof.
  intros [H2 Hn].
  pose proof (fits_int64_x_grid n Hn) as Hfit.
  apply fits_int64_moments in Hfit. destruct Hfit as (_ & _ & HD).
  pose proof (Npoints_max_int64 n Hn) as Hn'.
  rewrite HD, x_grid_one_to by (unfold int64_max; lia).
  pose proof (exact_Delta_one_to_12 n). nia.
Qed.

Section LeastSquares.

Local Open Scope R_scope.

(** The fitted parameters solve the two normal equations. *)
Lemma normal_equations (n sx sxx sy sxy : R) :
  sxx * n - sx * sx <> 0 ->
  sy - n * ((sy * sxx - sxy * sx) / (sxx * n - sx * sx))
     - (sxy * n - sy * sx) / (sxx * n - sx * sx) * sx = 0
  /\ sxy - (sy * sxx - sxy * sx) / (sxx * n - sx * sx) * sx
         - (sxy * n - sy * sx) / (sxx * n - sx * sx) * sxx = 0.
Proof. intros HD. split; field; exact HD. Qed.

(** The parameters of the fit in exact arithmetic, when nothing overflows. *)
Lemma AnalyticalLinearFit_exact (x : list Z) (y : list R) (sigma : R) :
  fits_int64 x ->
  let n := IZR (Z.of_nat (length x)) in
  let D := SXX x * n - SX x * SX x in
  IZR (Delta x) = D
  /\ alpha0_calc (AnalyticalLinearFit x y sigma) = (SY y * SXX x - SXY x y * SX x) / D
  /\ alpha1_calc (AnalyticalLinearFit x y sigma) = (SXY x y * n - SY y * SX x) / D.
Proof.
  intros Hfit n D.
  destruct (fits_int64_moments x Hfit) as (E1 & E2 & E3).
  assert (HD : IZR (Delta x) = D) by (rewrite E3; apply IZR_exact_Delta).
  split; [exact HD|].
  unfold AnalyticalLinearFit. cbn [alpha0_calc alpha1_calc].
  cbn [fadd fsub fmul fdiv of_int exact].
  rewrite HD, sy_calc_exact, sxy_calc_exact, E1, E2, IZR_exact_Sx, IZR_exact_Sxx.
  split; reflexivity.
Qed.

(** C2, as amended.  In exact arithmetic, for every dataset whose integer
    moments fit 64 bits and whose [Delta] is not zero, with [ey = sigma] at
    every point, the chi-square of the loop at the fitted parameters is at
    most its value at any other [(a0, a1)]. *)
Theorem AnalyticalLinearFit_minimises_Chi2 (x : list Z) (y : list R) (sigma : R) :
  length y = length x ->
  fits_int64 x ->
  Delta x <> 0%Z ->
  let m := AnalyticalLinearFit x y sigma in
  let ey := ey_data sigma x in
  exists c,
    Chi2 (length x) x y ey (alpha0_calc m) (alpha1_calc m) = Ok c
    /\ forall a0 a1 : R,
         exists c', Chi2 (length x) x y ey a0 a1 = Ok c' /\ c <= c'.
Proof.
  intros Hlen Hfit HD m ey.
  destruct (AnalyticalLinearFit_exact x y sigma Hfit) as (ED & E0 & E1).
  fold m in E0, E1.
  assert (HDR : SXX x * IZR (Z.of_nat (length x)) - SX x * SX x <> 0).
  { rewrite <- ED. apply not_0_IZR. exact HD. }
  destruct (normal_equations (IZR (Z.of_nat (length x))) (SX x) (SXX x) (SY y) (SXY x y) HDR)
    as [N1 N2].
  exists (Q x y (alpha0_calc m) (alpha1_calc m) * (/ sigma * / sigma)). split.
  - apply Chi2_exact. exact Hlen.
  - intros a0 a1. exists (Q x y a0 a1 * (/ sigma * / sigma)). split.
    + apply Chi2_exact. exact Hlen.
    + apply Rmult_le_compat_r.
      * pose proof (Rle_0_sqr (/ sigma)) as H. unfold Rsqr in H. exact H.
      * rewrite (Q_decompose x y (alpha0_calc m) (alpha1_calc m) a0 a1 Hlen).
        rewrite (R1_moments x y _ _ Hlen), (R2_moments x y _ _ Hlen).
        rewrite E0, E1, N1, N2.
        pose proof (P_nonneg x
                      ((SY y * SXX x - SXY x y * SX x)
                       / (SXX x * IZR (Z.of_nat (length x)) - SX x * SX x) - a0)
                      ((SXY x y * IZR (Z.of_nat (length x)) - SY y * SX x)
                       / (SXX x * IZR (Z.of_nat (length x)) - SX x * SX x) - a1)) as HP.
        lra.
Qed.

Lemma fits_int64_123 : fits_int64 [1; 2; 3]%Z.
Proof. apply (fits_int64_x_grid 3). unfold Npoints_max. lia. Qed.

Lemma AnalyticalLinearFit_minimises_Chi2_witness :
  length [1; 2; 4] = length [1; 2; 3]%Z
  /\ fits_int64 [1; 2; 3]%Z
  /\ Delta [1; 2; 3]%Z <> 0%Z
  /\ exists c,
       Chi2 3 [1; 2; 3]%Z [1; 2; 4] (ey_data 1 [1; 2; 3]%Z)
         (alpha0_calc (AnalyticalLinearFit [1; 2; 3]%Z [1; 2; 4] 1))
         (alpha1_calc (AnalyticalLinearFit [1; 2; 3]%Z [1; 2; 4] 1)) = Ok c
       /\ forall a0 a1 : R,
            exists c', Chi2 3 [1; 2; 3]%Z [1; 2; 4] (ey_data 1 [1; 2; 3]%Z) a0 a1 = Ok c'
                       /\ c <= c'.
Proof.
  assert (HD : Delta [1; 2; 3]%Z <> 0%Z) by (vm_compute; discriminate).
  split; [reflexivity|]. split; [exact fits_int64_123|]. split; [exact HD|].
  exact (AnalyticalLinearFit_minimises_Chi2 [1; 2; 3]%Z [1; 2; 4] 1
           eq_refl fits_int64_123 HD).
Defined.

(** Data on a line, as the loop generates them with zero noise. *)
Lemma y_data_zero_noise (a0 a1 : R) (x : list Z) :
  y_data a0 a1 x (repeat 0 (length x)) = map (fun xi => a0 + a1 * IZR xi + 0) x.
Proof.
  unfold y_data. induction x as [|xi x IH]; [reflexivity|].
  cbn [length repeat map map2]. rewrite IH. reflexivity.
Qed.

Lemma line_moments (a0 a1 : R) (x : list Z) :
  let y := map (fun xi => a0 + a1 * IZR xi + 0) x in
  SY y = IZR (Z.of_nat (length x)) * a0 + a1 * SX x
  /\ SXY x y = a0 * SX x + a1 * SXX x
  /\ Q x y a0 a1 = 0.
Proof.
  unfold SY, SXY, SX, SXX. induction x as [|xi x IH].
  - cbn. repeat split; ring.
  - destruct IH as (I1 & I2 & I3).
    cbn [map map2 Rsum fold_right Q length] in *.
    rewrite Nat2Z.inj_succ, succ_IZR.
    unfold Rsum in *. rewrite I1, I2, I3. repeat split; ring.
Qed.

(** C6, as amended.  In exact arithmetic, for [3 <= Npoints <= Npoints_max]
    and zero noise, the pseudo-experiment returns exactly the line it was
    generated from, a chi-square of exactly zero, [Npoints - 2] degrees of
    freedom and the survival function's value at zero. *)
Theorem exact_line_is_recovered (chi2_sf : R -> Z -> R) (cfg : Settings R) :
  (3 <= Npoints cfg <= Npoints_max)%nat ->
  exists r,
    experiment chi2_sf cfg (repeat 0 (Npoints cfg)) = Ok r
    /\ alpha0_calc (model r) = alpha0 cfg
    /\ alpha1_calc (model r) = alpha1 cfg
    /\ Chi2_calc r = 0
    /\ Ndof_calc r = (Z.of_nat (Npoints cfg) - 2)%Z
    /\ Prob_calc r = chi2_sf 0 (Z.of_nat (Npoints cfg) - 2)%Z.
Proof.
  intros [H3 Hmax].
  set (n := Npoints cfg) in *.
  set (x := x_grid n).
  assert (Hx : length x = n) by apply length_x_grid.
  set (y := y_data (alpha0 cfg) (alpha1 cfg) x (repeat 0 n)).
  assert (Hy : y = map (fun xi => alpha0 cfg + alpha1 cfg * IZR xi + 0) x).
  { unfold y. rewrite <- Hx. apply y_data_zero_noise. }
  assert (Hlen : length y = length x) by (rewrite Hy; apply length_map).
  pose proof (fits_int64_x_grid n Hmax) as Hfit. fold x in Hfit.
  assert (H2 : (2 <= n <= Npoints_max)%nat) by lia.
  assert (HDR : IZR (Delta x) <> 0).
  { apply not_0_IZR. pose proof (Delta_x_grid_pos n H2). unfold x. lia. }
  destruct (AnalyticalLinearFit_exact x y (sigmay cfg) Hfit) as (ED & E0 & E1).
  rewrite ED in HDR.
  destruct (line_moments (alpha0 cfg) (alpha1 cfg) x) as (M1 & M2 & M3).
  rewrite <- Hy in M1, M2, M3.
  assert (A0 : alpha0_calc (AnalyticalLinearFit x y (sigmay cfg)) = alpha0 cfg).
  { rewrite E0, M1, M2. field. exact HDR. }
  assert (A1 : alpha1_calc (AnalyticalLinearFit x y (sigmay cfg)) = alpha1 cfg).
  { rewrite E1, M1, M2. field. exact HDR. }
  assert (HC : fold_left fadd
                 (pulls x y (ey_data (sigmay cfg) x)
                    (alpha0_calc (AnalyticalLinearFit x y (sigmay cfg)))
                    (alpha1_calc (AnalyticalLinearFit x y (sigmay cfg)))) (of_int 0%Z)
               = 0).
  { rewrite (pulls_exact x y _ _ _ _ Hlen), A0, A1, M3. cbn [of_int exact]. ring. }
  eexists. split.
  - apply (experiment_Ok chi2_sf cfg (repeat 0 (Npoints cfg))). apply repeat_length.
  - cbn [model Chi2_calc Ndof_calc Prob_calc].
    fold n. fold x. fold y. rewrite HC. unfold Ndof, Nvar.
    repeat split; assumption.
Qed.

Definition nine_points : Settings R :=
  {| Nexp := 10; Npoints := 9; alpha0 := 3.6; alpha1 := 0.3; sigmay := 1 |}.

Lemma exact_line_is_recovered_witness :
  (3 <= Npoints nine_points <= Npoints_max)%nat
  /\ forall chi2_sf : R -> Z -> R,
       exists r,
         experiment chi2_sf nine_points (repeat 0 (Npoints nine_points)) = Ok r
         /\ alpha0_calc (model r) = alpha0 nine_points
         /\ alpha1_calc (model r) = alpha1 nine_points
         /\ Chi2_calc r = 0
         /\ Ndof_calc r = (Z.of_nat (Npoints nine_points) - 2)%Z
         /\ Prob_calc r = chi2_sf 0 (Z.of_nat (Npoints nine_points) - 2)%Z.
Proof.
  assert (H : (3 <= Npoints nine_points <= Npoints_max)%nat)
    by (unfold Npoints_max; simpl; lia).
  split; [exact H|]. intros sf. exact (exact_line_is_recovered sf nine_points H).
Defined.

End LeastSquares.

(** ** Binary64: a line the fit does not recover *)

(** Intercept [2^52], slope 1, three points, no noise. *)
Definition ill_conditioned : Settings float :=
  {| Nexp := 1; Npoints := 3; alpha0 := 4503599627370496%float; alpha1 := 1%float;
     sigmay := 1%float |}.

Definition line_y : list float :=
  [4503599627370497%float; 4503599627370498%float; 4503599627370499%float].

(** The three values are the integers [2^52 + 1], [2^52 + 2], [2^52 + 3]:
    the data lie on the line exactly. *)
Lemma line_y_exact :
  y_data (alpha0 ill_conditioned) (alpha1 ill_conditioned) (x_grid 3) (np_zeros 3) = line_y
  /\ map Prim2SF line_y
     = [S754_finite false 4503599627370497 0; S754_finite false 4503599627370498 0;
        S754_finite false 4503599627370499 0]
  /\ Prim2SF (alpha0 ill_conditioned) = S754_finite false 4503599627370496 0.
Proof. vm_compute. repeat split. Qed.

(** On these data the chi-square at the fitted parameters is 65; at the line
    the data were generated from it is 0. *)
Lemma binary64_fit_is_not_the_minimum :
  Delta (x_grid 3) = 6
  /\ y_data (alpha0 ill_conditioned) (alpha1 ill_conditioned) (x_grid 3) (np_zeros 3) = line_y
  /\ Chi2 3 (x_grid 3) line_y (ey_data 1%float (x_grid 3))
       (alpha0_calc (AnalyticalLinearFit (x_grid 3) line_y 1%float))
       (alpha1_calc (AnalyticalLinearFit (x_grid 3) line_y 1%float)) = Ok 65%float
  /\ Chi2 3 (x_grid 3) line_y (ey_data 1%float (x_grid 3)) 4503599627370496%float 1%float
     = Ok 0%float
  /\ PrimFloat.ltb 0%float 65%float = true.
Proof. vm_compute. repeat split. Qed.

(** On these data the fitted slope is [-8/3] instead of 1 and the chi-square
    is 65 instead of 0. *)
Lemma binary64_line_is_not_recovered :
  (3 <= Npoints ill_conditioned <= Npoints_max)%nat
  /\ (forall sf : float -> Z -> float,
        experiment sf ill_conditioned (np_zeros 3)
        = Ok {| model := {| alpha0_calc := 4503599627370507%float;
                            alpha1_calc := PrimFloat.div (-8)%float 3%float;
                            sigma_alpha0_calc := PrimFloat.sqrt (14 / 6)%float;
                            sigma_alpha1_calc := PrimFloat.sqrt (3 / 6)%float |};
                Chi2_calc := 65%float; Ndof_calc := 1; Prob_calc := sf 65%float 1 |})
  /\ PrimFloat.ltb 3%float
       (PrimFloat.abs (PrimFloat.sub (PrimFloat.div (-8)%float 3%float) 1%float)) = true.
Proof.
  split; [unfold Npoints_max; simpl; lia|].
  split; [intros sf; vm_compute; reflexivity|].
  vm_compute. reflexivity.
Qed.

(** * Further properties of the loop body *)

(** ** Bounds of the chi-square loop *)

Section Chi2Bounds.

Context {F : Type} {FO : Float64 F}.

Lemma getitem_firstn {A : Type} (l : list A) (n i : nat) :
  (i < n)%nat -> getitem (firstn n l) i = getitem l i.
Proof.
  intros H. unfold getitem. rewrite nth_error_firstn.
  apply Nat.ltb_lt in H. rewrite H. reflexivity.
Qed.

Lemma Chi2_term_firstn (n : nat) (x : list Z) (y ey : list F) (a0 a1 : F) (i : nat) :
  (i < n)%nat ->
  Chi2_term (firstn n x) (firstn n y) (firstn n ey) a0 a1 i = Chi2_term x y ey a0 a1 i.
Proof.
  intros H. unfold Chi2_term. rewrite !getitem_firstn by assumption. reflexivity.
Qed.

Lemma Chi2_loop_firstn (n : nat) (x : list Z) (y ey : list F) (a0 a1 : F)
    (range : list nat) (acc : F) :
  Forall (fun i => (i < n)%nat) range ->
  Chi2_loop (firstn n x) (firstn n y) (firstn n ey) a0 a1 range acc
  = Chi2_loop x y ey a0 a1 range acc.
Proof.
  intros H. revert acc. induction H as [|i rest Hi _ IH]; intros acc.
  - reflexivity.
  - cbn [Chi2_loop]. rewrite Chi2_term_firstn by assumption.
    destruct (Chi2_term x y ey a0 a1 i); cbn [bind]; auto.
Qed.

Lemma Chi2_term_Raise (x : list Z) (y ey : list F) (a0 a1 : F) (i : nat) :
  (length x <= i \/ length y <= i \/ length ey <= i)%nat ->
  Chi2_term x y ey a0 a1 i = Raise IndexError.
Proof.
  intros H. unfold Chi2_term.
  destruct (getitem x i) as [xi|e] eqn:Ex; cbn [bind];
    [|apply getitem_exn in Ex; rewrite Ex; reflexivity].
  destruct (getitem y i) as [yi|e] eqn:Ey; cbn [bind];
    [|apply getitem_exn in Ey; rewrite Ey; reflexivity].
  destruct (getitem ey i) as [ei|e] eqn:Ee; cbn [bind];
    [|apply getitem_exn in Ee; rewrite Ee; reflexivity].
  destruct H as [H|[H|H]].
  - rewrite getitem_Raise in Ex by assumption. discriminate.
  - rewrite getitem_Raise in Ey by assumption. discriminate.
  - rewrite getitem_Raise in Ee by assumption. discriminate.
Qed.

Lemma Chi2_term_exn (x : list Z) (y ey : list F) (a0 a1 : F) (i : nat) (e : exn) :
  Chi2_term x y ey a0 a1 i = Raise e -> e = IndexError.
Proof.
  unfold Chi2_term.
  destruct (getitem x i) as [xi|e1] eqn:Ex; cbn [bind];
    [|intros H; injection H as <-; exact (getitem_exn _ _ _ Ex)].
  destruct (getitem y i) as [yi|e1] eqn:Ey; cbn [bind];
    [|intros H; injection H as <-; exact (getitem_exn _ _ _ Ey)].
  destruct (getitem ey i) as [ei|e1] eqn:Ee; cbn [bind];
    [|intros H; injection H as <-; exact (getitem_exn _ _ _ Ee)].
  discriminate.
Qed.

Lemma Chi2_loop_Raise (x : list Z) (y ey : list F) (a0 a1 : F)
    (range : list nat) (acc : F) :
  Exists (fun i => (length x <= i \/ length y <= i \/ length ey <= i)%nat) range ->
  Chi2_loop x y ey a0 a1 range acc = Raise IndexError.
Proof.
  intros H. revert acc. induction H as [i rest Hi|i rest _ IH]; intros acc; cbn [Chi2_loop].
  - rewrite Chi2_term_Raise by assumption. reflexivity.
  - destruct (Chi2_term x y ey a0 a1 i) as [t|e] eqn:Et; cbn [bind]; auto.
    apply Chi2_term_exn in Et. rewrite Et. reflexivity.
Qed.

(** X1.  The chi-square loop over [range(n)] reads the first [n] entries of
    [x], [y] and [ey] and nothing else: when each array has at least [n]
    entries it returns the squared pulls of those entries accumulated from
    [0.0]; when one of them is shorter it raises [IndexError]. *)
Theorem Chi2_reads_first_n (n : nat) (x : list Z) (y ey : list F) (a0 a1 : F) :
  ((n <= length x /\ n <= length y /\ n <= length ey)%nat ->
   Chi2 n x y ey a0 a1
   = Ok (fold_left fadd (pulls (firstn n x) (firstn n y) (firstn n ey) a0 a1) (of_int 0)))
  /\ ((length x < n \/ length y < n \/ length ey < n)%nat ->
      Chi2 n x y ey a0 a1 = Raise IndexError).
Proof.
  split.
  - intros (Hx & Hy & He). unfold Chi2.
    rewrite <- (Chi2_loop_firstn n).
    + apply Chi2_loop_pulls; apply firstn_length_le; assumption.
    + apply Forall_forall. intros i Hi. apply in_seq in Hi. lia.
  - intros H. unfold Chi2. apply Chi2_loop_Raise.
    apply Exists_exists.
    exists (Nat.min (length x) (Nat.min (length y) (length ey))). split.
    + apply in_seq. lia.
    + lia.
Qed.

(** [fit_function(x, alpha0, alpha1)] on an array [x]: the model handed to
    the numerical fit. *)
Definition fit_function (x : list Z) (a0 a1 : F) : list F :=
  map (fun xi => fadd a0 (fmul a1 (of_int xi))) x.

End Chi2Bounds.

(** ** One pass of the loop, the printed lines and the draws *)

Lemma getitem_replace_nth_other {A : Type} (l : list A) (i j : nat) (v : A) :
  j <> i -> getitem (replace_nth l i v) j = getitem l j.
Proof.
  unfold getitem. revert i j.
  induction l as [|h t IH]; intros [|i] [|j] H; cbn; auto; try contradiction.
Qed.

Lemma getitem_replace_nth_same {A : Type} (l : list A) (i : nat) (v : A) :
  (i < length l)%nat -> getitem (replace_nth l i v) i = Ok v.
Proof.
  unfold getitem. revert i. induction l as [|h t IH]; intros [|i] H; cbn in *; try lia; auto.
  apply IH. lia.
Qed.

Section LoopBody.

Context {F : Type} {FO : Float64 F}.
Variable chi2_sf : F -> Z -> F.
Context {G : Type}.
Variable gauss : G -> F * G.

(** X3.  One pass of the loop from any state.  When the sign bit of [sigmay]
    is set, [r.normal] raises [ValueError] and nothing is written.  Otherwise,
    when [iexp] is within the four arrays, the pass returns: entry [iexp] of
    each array then holds the value the loop body computes from the [Npoints]
    values just drawn, every other entry and the four lengths are as before,
    and the generator has moved past exactly those draws; and when [iexp] is
    out of range for one of the arrays, the pass raises [IndexError]. *)
Theorem iteration_writes_entry_iexp (cfg : Settings F) (iexp : nat) (st : Loop) :
  let drawn := normal_sample gauss (of_int 0) (sigmay cfg) (Npoints cfg) (rng st) in
  let A := arrays st in
  (signbit (sigmay cfg) = true ->
   iteration chi2_sf gauss cfg iexp st = Raise ValueError)
  /\ (signbit (sigmay cfg) = false ->
      (iexp < length (array_alpha0 A) /\ iexp < length (array_alpha1 A)
       /\ iexp < length (array_Chi2 A) /\ iexp < length (array_Prob A))%nat ->
      exists st' r,
        iteration chi2_sf gauss cfg iexp st = Ok st'
        /\ experiment chi2_sf cfg (fst drawn) = Ok r
        /\ rng st' = snd drawn
        /\ getitem (array_alpha0 (arrays st')) iexp = Ok (alpha0_calc (model r))
        /\ getitem (array_alpha1 (arrays st')) iexp = Ok (alpha1_calc (model r))
        /\ getitem (array_Chi2 (arrays st')) iexp = Ok (Chi2_calc r)
        /\ getitem (array_Prob (arrays st')) iexp = Ok (Prob_calc r)
        /\ length (array_alpha0 (arrays st')) = length (array_alpha0 A)
        /\ length (array_alpha1 (arrays st')) = length (array_alpha1 A)
        /\ length (array_Chi2 (arrays st')) = length (array_Chi2 A)
        /\ length (array_Prob (arrays st')) = length (array_Prob A)
        /\ forall j, j <> iexp ->
             getitem (array_alpha0 (arrays st')) j = getitem (array_alpha0 A) j
             /\ getitem (array_alpha1 (arrays st')) j = getitem (array_alpha1 A) j
             /\ getitem (array_Chi2 (arrays st')) j = getitem (array_Chi2 A) j
             /\ getitem (array_Prob (arrays st')) j = getitem (array_Prob A) j)
  /\ (signbit (sigmay cfg) = false ->
      (length (array_alpha0 A) <= iexp \/ length (array_alpha1 A) <= iexp
       \/ length (array_Chi2 A) <= iexp \/ length (array_Prob A) <= iexp)%nat ->
      iteration chi2_sf gauss cfg iexp st = Raise IndexError).
Proof.
  intros drawn A.
  set (r := result_of chi2_sf cfg (fst drawn)).
  assert (Hlen : length (fst drawn) = Npoints cfg) by apply length_normal_sample.
  assert (Hexp : experiment chi2_sf cfg (fst drawn) = Ok r)
    by (apply experiment_result_of; exact Hlen).
  assert (Hit : signbit (sigmay cfg) = false ->
    iteration chi2_sf gauss cfg iexp st
    = (a0 <- setitem (array_alpha0 A) iexp (alpha0_calc (model r)) ;;
       a1 <- setitem (array_alpha1 A) iexp (alpha1_calc (model r)) ;;
       c <- setitem (array_Chi2 A) iexp (Chi2_calc r) ;;
       p <- setitem (array_Prob A) iexp (Prob_calc r) ;;
       Ok {| rng := snd drawn;
             arrays := {| array_alpha0 := a0; array_alpha1 := a1;
                          array_Chi2 := c; array_Prob := p |};
             printed := if (iexp <? 10)%nat
                        then printed st ++ [(model r, Prob_calc r)]
                        else printed st |})).
  { intros Hs. unfold iteration, normal. rewrite Hs. cbn [bind]. fold drawn.
    rewrite (surjective_pairing drawn). rewrite Hexp. reflexivity. }
  split; [|split].
  - intros Hs. unfold iteration, normal. rewrite Hs. reflexivity.
  - intros Hs (H0 & H1 & H2 & H3). rewrite (Hit Hs).
    rewrite !setitem_Ok by assumption. cbn [bind].
    eexists. exists r. split; [reflexivity|]. split; [exact Hexp|].
    cbn [rng arrays array_alpha0 array_alpha1 array_Chi2 array_Prob].
    rewrite !length_replace_nth, !getitem_replace_nth_same by assumption.
    repeat split; auto using getitem_replace_nth_other.
  - intros Hs H. rewrite (Hit Hs).
    destruct (setitem (array_alpha0 A) iexp (alpha0_calc (model r))) as [a0|e] eqn:E0;
      cbn [bind]; [|apply setitem_exn in E0; rewrite E0; reflexivity].
    destruct (setitem (array_alpha1 A) iexp (alpha1_calc (model r))) as [a1|e] eqn:E1;
      cbn [bind]; [|apply setitem_exn in E1; rewrite E1; reflexivity].
    destruct (setitem (array_Chi2 A) iexp (Chi2_calc r)) as [c|e] eqn:E2;
      cbn [bind]; [|apply setitem_exn in E2; rewrite E2; reflexivity].
    destruct (setitem (array_Prob A) iexp (Prob_calc r)) as [p|e] eqn:E3;
      cbn [bind]; [|apply setitem_exn in E3; rewrite E3; reflexivity].
    destruct H as [H|[H|[H|H]]].
    + rewrite setitem_Raise in E0 by assumption. discriminate.
    + rewrite setitem_Raise in E1 by assumption. discriminate.
    + rewrite setitem_Raise in E2 by assumption. discriminate.
    + rewrite setitem_Raise in E3 by assumption. discriminate.
Qed.

(** X4.  When [r.normal] accepts the scale, the loop prints for the first ten
    pseudo-experiments only: after the loop there are [min(Nexp, 10)] lines,
    and line [i] shows the fit and the probability the loop body computes
    from dataset [i]. *)
Theorem loop_prints_first_ten (cfg : Settings F) (g : G) :
  signbit (sigmay cfg) = false ->
  exists st,
    Repeater chi2_sf gauss cfg g = Ok st
    /\ length (printed st) = Nat.min (Nexp cfg) 10
    /\ forall i, (i < Nat.min (Nexp cfg) 10)%nat ->
         exists r,
           experiment chi2_sf cfg (noise_of gauss cfg g i) = Ok r
           /\ nth_error (printed st) i = Some (model r, Prob_calc r).
Proof.
  intros Hs.
  exists (state_at chi2_sf gauss cfg g (Nexp cfg)).
  split; [apply Repeater_state_at; exact Hs|].
  cbn [printed state_at]. rewrite length_map, length_seq. split; [reflexivity|].
  intros i Hi. exists (kth_result chi2_sf gauss cfg g i). split.
  - apply experiment_result_of. apply length_normal_sample.
  - rewrite (nth_error_map _ i (seq 0 (Nat.min (Nexp cfg) 10))).
    rewrite (nth_error_nth' _ 0%nat) by (rewrite length_seq; assumption).
    rewrite seq_nth by assumption. reflexivity.
Qed.

(** The generator after [k] single standard normal draws. *)
Definition draws (k : nat) (g : G) : G := Nat.iter k (fun h => snd (gauss h)) g.

Lemma draws_S (k : nat) (g : G) : draws k (snd (gauss g)) = draws (S k) g.
Proof. unfold draws. symmetry. apply Nat.iter_succ_r. Qed.

Lemma normal_draws (loc scale : F) (n : nat) (g : G) :
  normal_sample gauss loc scale n g
  = (map (fun j => fadd loc (fmul scale (fst (gauss (draws j g))))) (seq 0 n), draws n g).
Proof.
  revert g. induction n as [|n IH]; intros g.
  - reflexivity.
  - cbn [normal_sample]. destruct (gauss g) as [z g1] eqn:Eg. rewrite IH.
    assert (Hg1 : g1 = snd (gauss g)) by (rewrite Eg; reflexivity).
    cbn [seq map]. rewrite <- seq_shift, map_map.
    f_equal.
    + f_equal.
      * change (draws 0 g) with g. rewrite Eg. reflexivity.
      * apply map_ext. intros j. rewrite Hg1, draws_S. reflexivity.
    + rewrite Hg1. apply draws_S.
Qed.

Lemma rng_after_draws (cfg : Settings F) (g : G) (k : nat) :
  rng_after gauss cfg g k = draws (k * Npoints cfg) g.
Proof.
  induction k as [|k IH].
  - reflexivity.
  - cbn [rng_after]. rewrite normal_draws. cbn [snd]. rewrite IH.
    unfold draws. rewrite <- Nat.iter_add. f_equal.
Qed.

(** X5.  When [r.normal] accepts the scale, the loop consumes the generator
    in order and nothing else does: dataset [k] is made of draws number
    [k * Npoints] to [k * Npoints + Npoints - 1] counted from the state the
    loop starts in, each scaled as [0 + sigmay * draw], and the loop leaves
    the generator [Nexp * Npoints] draws further. *)
Theorem loop_draws_in_order (cfg : Settings F) (g : G) :
  signbit (sigmay cfg) = false ->
  exists st,
    Repeater chi2_sf gauss cfg g = Ok st
    /\ rng st = draws (Nexp cfg * Npoints cfg) g
    /\ forall k,
         noise_of gauss cfg g k
         = map (fun j => fadd (of_int 0)
                           (fmul (sigmay cfg)
                              (fst (gauss (draws (k * Npoints cfg + j) g)))))
               (seq 0 (Npoints cfg)).
Proof.
  intros Hs.
  exists (state_at chi2_sf gauss cfg g (Nexp cfg)).
  split; [apply Repeater_state_at; exact Hs|].
  cbn [rng state_at]. split; [apply rng_after_draws|].
  intros k. unfold noise_of. rewrite normal_draws. cbn [fst].
  apply map_ext. intros j. rewrite rng_after_draws.
  unfold draws. rewrite <- Nat.iter_add. do 5 f_equal. lia.
Qed.

End LoopBody.

(** ** When [Delta] vanishes, and up to where it is right *)

(** The sum of squared distances of the entries of [l] to [a]. *)
Definition ssd (a : Z) (l : list Z) : Z := Zsum (map (fun v => (v - a) * (v - a)) l).

Lemma ssd_expand (a : Z) (l : list Z) :
  ssd a l = exact_Sxx l - 2 * a * exact_Sx l + Z.of_nat (length l) * (a * a).
Proof.
  unfold ssd, exact_Sxx, exact_Sx. induction l as [|h t IH]; [cbn; ring|].
  change (Zsum (map (fun v => (v - a) * (v - a)) (h :: t)))
    with ((h - a) * (h - a) + Zsum (map (fun v => (v - a) * (v - a)) t)).
  change (Zsum (map (fun v => v * v) (h :: t))) with (h * h + Zsum (map (fun v => v * v) t)).
  change (Zsum (h :: t)) with (h + Zsum t).
  change (length (h :: t)) with (S (length t)).
  rewrite IH, Nat2Z.inj_succ. ring.
Qed.

Lemma ssd_nonneg (a : Z) (l : list Z) : 0 <= ssd a l.
Proof.
  unfold ssd. induction l as [|h t IH]; [reflexivity|].
  change (Zsum (map (fun v => (v - a) * (v - a)) (h :: t)))
    with ((h - a) * (h - a) + Zsum (map (fun v => (v - a) * (v - a)) t)).
  pose proof (Z.square_nonneg (h - a)). lia.
Qed.

Lemma ssd_zero_iff (a : Z) (l : list Z) : ssd a l = 0 <-> forall v, In v l -> v = a.
Proof.
  induction l as [|h t IH].
  - split; [intros _ v []|reflexivity].
  - pose proof (ssd_nonneg a t) as Ht.
    assert (E : ssd a (h :: t) = (h - a) * (h - a) + ssd a t) by reflexivity.
    rewrite E. split.
    + intros H.
      pose proof (Z.square_nonneg (h - a)) as Hq.
      assert (Hsq : (h - a) * (h - a) = 0) by lia.
      assert (Hs : ssd a t = 0) by lia.
      assert (Hh : h = a) by (apply Z.mul_eq_0 in Hsq; lia).
      intros v [<-|Hv]; [exact Hh|apply IH; assumption].
    + intros H.
      assert (Hh : h = a) by (apply H; left; reflexivity).
      assert (Hs : ssd a t = 0) by (apply IH; intros v Hv; apply H; right; exact Hv).
      rewrite Hs, Hh. ring.
Qed.

(** Adding one point adds its squared distances to the points already there. *)
Lemma exact_Delta_cons (a : Z) (l : list Z) :
  exact_Delta (a :: l) = exact_Delta l + ssd a l.
Proof.
  rewrite ssd_expand. unfold exact_Delta, exact_Sxx, exact_Sx.
  change (Zsum (map (fun v => v * v) (a :: l))) with (a * a + Zsum (map (fun v => v * v) l)).
  change (Zsum (a :: l)) with (a + Zsum l).
  change (length (a :: l)) with (S (length l)).
  rewrite Nat2Z.inj_succ. ring.
Qed.

Lemma exact_Delta_nonneg (l : list Z) : 0 <= exact_Delta l.
Proof.
  induction l as [|a l IH]; [reflexivity|].
  rewrite exact_Delta_cons. pose proof (ssd_nonneg a l). lia.
Qed.

Lemma exact_Delta_zero_iff (l : list Z) :
  exact_Delta l = 0 <-> forall u v, In u l -> In v l -> u = v.
Proof.
  induction l as [|a l IH].
  - split; [intros _ u v []|reflexivity].
  - rewrite exact_Delta_cons.
    pose proof (ssd_nonneg a l) as Hs. pose proof (exact_Delta_nonneg l) as Hd.
    split.
    + intros H.
      assert (H1 : exact_Delta l = 0) by lia. assert (H2 : ssd a l = 0) by lia.
      assert (Ha : forall v, In v l -> v = a) by (apply ssd_zero_iff; lia).
      intros u v [<-|Hu] [<-|Hv]; auto.
      * symmetry. auto.
      * rewrite (Ha u Hu), (Ha v Hv). reflexivity.
    + intros H.
      assert (H1 : exact_Delta l = 0)
        by (apply IH; intros u v Hu Hv; apply H; right; assumption).
      assert (H2 : ssd a l = 0).
      { apply ssd_zero_iff. intros v Hv. apply H; [right; exact Hv|left; reflexivity]. }
      lia.
Qed.

(** X6.  On integer arrays whose moments fit 64 bits, the [Delta] of the code
    is never negative, and it is zero exactly when all [x] are the same
    value (or there is none). *)
Theorem Delta_zero_iff_one_x (x : list Z) :
  fits_int64 x ->
  0 <= Delta x /\ (Delta x = 0 <-> forall u v, In u x -> In v x -> u = v).
Proof.
  intros Hfit. destruct (fits_int64_moments x Hfit) as (_ & _ & ->).
  split; [apply exact_Delta_nonneg|apply exact_Delta_zero_iff].
Qed.

Lemma fits_int64_three : fits_int64 [1; 2; 3].
Proof. apply (fits_int64_x_grid 3). unfold Npoints_max. lia. Qed.

Lemma Delta_zero_iff_one_x_witness :
  fits_int64 [1; 2; 3]
  /\ 0 <= Delta [1; 2; 3]
  /\ (Delta [1; 2; 3] = 0 <-> forall u v, In u [1; 2; 3] -> In v [1; 2; 3] -> u = v).
Proof.
  split; [exact fits_int64_three|].
  exact (Delta_zero_iff_one_x [1; 2; 3] fits_int64_three).
Defined.

(** X7.  On the grid [1..n] the [Delta] of the code is [n^2 (n^2 - 1) / 12]
    exactly when [n <= 102569]: that bound is the largest number of points
    for which the 64-bit [Delta] is right. *)
Theorem Delta_x_grid_right_iff (n : nat) :
  Z.of_nat n <= int64_max ->
  (Delta (x_grid n) = Z.of_nat n ^ 2 * (Z.of_nat n ^ 2 - 1) / 12
   <-> (n <= Npoints_max)%nat).
Proof.
  intros Hn. rewrite Delta_x_grid by assumption.
  pose proof (exact_Delta_one_to_12 n) as H12.
  rewrite <- exact_Delta_one_to.
  pose proof (exact_Delta_nonneg (one_to n)) as H0.
  split.
  - intros H.
    pose proof (wrap64_range (exact_Delta (one_to n))) as Hr.
    rewrite H in Hr. unfold in_int64, int64_max in Hr.
    unfold Npoints_max.
    assert (Hz : Z.of_nat n <= 102569); [|lia].
    destruct (Z.le_gt_cases (Z.of_nat n) 102569) as [Hle|Hgt]; [exact Hle|].
    exfalso.
    assert (Hm : 102570 ^ 2 <= Z.of_nat n ^ 2) by nia.
    nia.
  - intros H. apply wrap64_id.
    pose proof (fits_int64_x_grid n H) as (_ & _ & _ & HD).
    rewrite x_grid_one_to in HD by assumption. exact HD.
Qed.

Lemma Delta_x_grid_right_iff_witness :
  Z.of_nat 9 <= int64_max
  /\ (Delta (x_grid 9) = Z.of_nat 9 ^ 2 * (Z.of_nat 9 ^ 2 - 1) / 12
      <-> (9 <= Npoints_max)%nat).
Proof.
  assert (H : Z.of_nat 9 <= int64_max) by (unfold int64_max; lia).
  split; [exact H|]. exact (Delta_x_grid_right_iff 9 H).
Defined.

(** ** Exact arithmetic: what the fitted line is *)

Section FittedLine.

Local Open Scope R_scope.

Lemma SY_plus (y1 y2 : list R) :
  length y1 = length y2 -> SY (map2 Rplus y1 y2) = SY y1 + SY y2.
Proof.
  unfold SY. revert y2. induction y1 as [|a y1 IH]; intros [|b y2] H; try discriminate.
  - cbn. ring.
  - simpl in H. cbn [map2 Rsum fold_right]. unfold Rsum in IH. rewrite IH by lia. ring.
Qed.

Lemma SXY_plus (x : list Z) (y1 y2 : list R) :
  length y1 = length x -> length y2 = length x ->
  SXY x (map2 Rplus y1 y2) = SXY x y1 + SXY x y2.
Proof.
  unfold SXY. revert y1 y2.
  induction x as [|xi x IH]; intros [|a y1] [|b y2] H1 H2; try discriminate.
  - cbn. ring.
  - simpl in H1, H2. cbn [map2 Rsum fold_right]. unfold Rsum in IH.
    rewrite IH by lia. ring.
Qed.

Lemma SY_scal (c : R) (y : list R) : SY (map (Rmult c) y) = c * SY y.
Proof.
  unfold SY. induction y as [|a y IH].
  - cbn. ring.
  - cbn [map Rsum fold_right]. unfold Rsum in IH. rewrite IH. ring.
Qed.

Lemma SXY_scal (c : R) (x : list Z) (y : list R) :
  SXY x (map (Rmult c) y) = c * SXY x y.
Proof.
  unfold SXY. revert y. induction x as [|xi x IH]; intros [|a y].
  - cbn. ring.
  - cbn. ring.
  - cbn. ring.
  - cbn [map map2 Rsum fold_right]. unfold Rsum in IH. rewrite IH. ring.
Qed.

(** The parameters as the code computes them, in terms of the real sums. *)
Lemma alpha_calc_exact (x : list Z) (y : list R) (sigma : R) :
  alpha0_calc (AnalyticalLinearFit x y sigma)
  = (SY y * IZR (sxx_calc x) - SXY x y * IZR (sx_calc x)) / IZR (Delta x)
  /\ alpha1_calc (AnalyticalLinearFit x y sigma)
     = (SXY x y * IZR (s_calc x) - SY y * IZR (sx_calc x)) / IZR (Delta x).
Proof.
  unfold AnalyticalLinearFit. cbn [alpha0_calc alpha1_calc].
  cbn [fadd fsub fmul fdiv of_int exact].
  rewrite sy_calc_exact, sxy_calc_exact. split; reflexivity.
Qed.

(** X8.  In exact arithmetic the fitted parameters are linear in [y]: the
    fit of a sum of two [y] arrays is the sum of the fits, and the fit of
    [c * y] is [c] times the fit.  No condition on [x] is needed. *)
Theorem fit_is_linear_in_y (x : list Z) (y1 y2 : list R) (c sigma : R) :
  length y1 = length x -> length y2 = length x ->
  alpha0_calc (AnalyticalLinearFit x (map2 fadd y1 y2) sigma)
  = alpha0_calc (AnalyticalLinearFit x y1 sigma) + alpha0_calc (AnalyticalLinearFit x y2 sigma)
  /\ alpha1_calc (AnalyticalLinearFit x (map2 fadd y1 y2) sigma)
     = alpha1_calc (AnalyticalLinearFit x y1 sigma) + alpha1_calc (AnalyticalLinearFit x y2 sigma)
  /\ alpha0_calc (AnalyticalLinearFit x (map (fmul c) y1) sigma)
     = c * alpha0_calc (AnalyticalLinearFit x y1 sigma)
  /\ alpha1_calc (AnalyticalLinearFit x (map (fmul c) y1) sigma)
     = c * alpha1_calc (AnalyticalLinearFit x y1 sigma).
Proof.
  intros H1 H2. cbn [fadd fmul exact].
  destruct (alpha_calc_exact x (map2 Rplus y1 y2) sigma) as [-> ->].
  destruct (alpha_calc_exact x (map (Rmult c) y1) sigma) as [-> ->].
  destruct (alpha_calc_exact x y1 sigma) as [-> ->].
  destruct (alpha_calc_exact x y2 sigma) as [-> ->].
  rewrite SY_plus, SXY_plus, SY_scal, SXY_scal by congruence.
  unfold Rdiv. repeat split; ring.
Qed.

Lemma fit_is_linear_in_y_witness :
  length [1; 2; 4] = length [1; 2; 3]%Z
  /\ length [0; 1; 0] = length [1; 2; 3]%Z
  /\ alpha1_calc (AnalyticalLinearFit [1; 2; 3]%Z (map2 fadd [1; 2; 4] [0; 1; 0]) 1)
     = alpha1_calc (AnalyticalLinearFit [1; 2; 3]%Z [1; 2; 4] 1)
       + alpha1_calc (AnalyticalLinearFit [1; 2; 3]%Z [0; 1; 0] 1).
Proof.
  split; [reflexivity|]. split; [reflexivity|].
  destruct (fit_is_linear_in_y [1; 2; 3]%Z [1; 2; 4] [0; 1; 0] 1 1 eq_refl eq_refl)
    as (_ & H & _).
  exact H.
Defined.

(** X9.  In exact arithmetic, when the integer moments fit 64 bits and
    [Delta] is not zero, the residuals of the fitted line add up to zero, and
    so do the residuals weighted by [x] (the two normal equations). *)
Theorem residuals_sum_to_zero (x : list Z) (y : list R) (sigma : R) :
  length y = length x ->
  fits_int64 x ->
  Delta x <> 0%Z ->
  let m := AnalyticalLinearFit x y sigma in
  let residual := fun xi yi => yi - (alpha0_calc m + alpha1_calc m * IZR xi) in
  Rsum (map2 residual x y) = 0
  /\ Rsum (map2 (fun xi yi => IZR xi * residual xi yi) x y) = 0.
Proof.
  intros Hlen Hfit HD m residual.
  destruct (AnalyticalLinearFit_exact x y sigma Hfit) as (ED & E0 & E1).
  fold m in E0, E1.
  assert (HDR : SXX x * IZR (Z.of_nat (length x)) - SX x * SX x <> 0).
  { rewrite <- ED. apply not_0_IZR. exact HD. }
  destruct (normal_equations (IZR (Z.of_nat (length x))) (SX x) (SXX x) (SY y) (SXY x y) HDR)
    as [N1 N2].
  assert (G1 : forall a0 a1 x' y',
             Rsum (map2 (fun xi yi => yi - (a0 + a1 * IZR xi)) x' y') = R1 x' y' a0 a1).
  { intros a0 a1 x'. induction x' as [|xi x' IH]; intros [|yi y']; try reflexivity.
    cbn [map2 Rsum fold_right R1]. unfold Rsum in IH. rewrite IH. reflexivity. }
  assert (G2 : forall a0 a1 x' y',
             Rsum (map2 (fun xi yi => IZR xi * (yi - (a0 + a1 * IZR xi))) x' y')
             = R2 x' y' a0 a1).
  { intros a0 a1 x'. induction x' as [|xi x' IH]; intros [|yi y']; try reflexivity.
    cbn [map2 Rsum fold_right R2]. unfold Rsum in IH. rewrite IH. reflexivity. }
  unfold residual. rewrite G1, G2.
  rewrite (R1_moments x y _ _ Hlen), (R2_moments x y _ _ Hlen), E0, E1.
  split; [exact N1|exact N2].
Qed.

Lemma residuals_sum_to_zero_witness :
  length [1; 2; 4] = length [1; 2; 3]%Z
  /\ fits_int64 [1; 2; 3]%Z
  /\ Delta [1; 2; 3]%Z <> 0%Z
  /\ Rsum (map2 (fun xi yi =>
                   yi - (alpha0_calc (AnalyticalLinearFit [1; 2; 3]%Z [1; 2; 4] 1)
                         + alpha1_calc (AnalyticalLinearFit [1; 2; 3]%Z [1; 2; 4] 1) * IZR xi))
             [1; 2; 3]%Z [1; 2; 4]) = 0.
Proof.
  assert (HD : Delta [1; 2; 3]%Z <> 0%Z) by (vm_compute; discriminate).
  split; [reflexivity|]. split; [exact fits_int64_three|]. split; [exact HD|].
  destruct (residuals_sum_to_zero [1; 2; 3]%Z [1; 2; 4] 1 eq_refl fits_int64_three HD)
    as [H _].
  exact H.
Defined.

Lemma P_quadratic (x : list Z) (d0 d1 : R) :
  P x d0 d1
  = IZR (Z.of_nat (length x)) * (d0 * d0) + 2 * d0 * d1 * SX x + d1 * d1 * SXX x.
Proof.
  unfold SX, SXX. induction x as [|xi x IH].
  - cbn. ring.
  - cbn [P map Rsum fold_right length]. unfold Rsum in IH. rewrite IH.
    rewrite Nat2Z.inj_succ, succ_IZR. ring.
Qed.

(** X10.  In exact arithmetic, when the integer moments fit 64 bits, [Delta]
    is not zero and [sigma] is not zero, the fitted pair is the only minimum:
    any [(a0, a1)] at which the chi-square of the loop equals its value at
    the fitted parameters is the fitted pair. *)
Theorem fit_is_the_only_minimum (x : list Z) (y : list R) (sigma : R) :
  length y = length x ->
  fits_int64 x ->
  Delta x <> 0%Z ->
  sigma <> 0 ->
  let m := AnalyticalLinearFit x y sigma in
  let ey := ey_data sigma x in
  forall a0 a1 : R,
    Chi2 (length x) x y ey a0 a1
    = Chi2 (length x) x y ey (alpha0_calc m) (alpha1_calc m) ->
    a0 = alpha0_calc m /\ a1 = alpha1_calc m.
Proof.
  intros Hlen Hfit HD Hs m ey a0 a1 Heq.
  unfold ey in Heq. rewrite !Chi2_exact in Heq by exact Hlen.
  injection Heq as Heq.
  assert (Hk : / sigma * / sigma <> 0).
  { apply Rmult_integral_contrapositive_currified; apply Rinv_neq_0_compat; exact Hs. }
  apply Rmult_eq_reg_r in Heq; [|exact Hk].
  destruct (AnalyticalLinearFit_exact x y sigma Hfit) as (ED & E0 & E1).
  fold m in E0, E1.
  assert (Hnn : (0 <= Delta x)%Z).
  { destruct (fits_int64_moments x Hfit) as (_ & _ & ->). apply exact_Delta_nonneg. }
  change (Q x y a0 a1 = Q x y (alpha0_calc m) (alpha1_calc m)) in Heq.
  assert (HDZ : (0 < Delta x)%Z) by (clear - HD Hnn; lia).
  assert (HDpos : 0 < IZR (Delta x)) by (apply IZR_lt; exact HDZ).
  set (n := IZR (Z.of_nat (length x))) in *.
  assert (HDR : SXX x * n - SX x * SX x <> 0)
    by (rewrite <- ED; apply Rgt_not_eq; exact HDpos).
  destruct (normal_equations n (SX x) (SXX x) (SY y) (SXY x y) HDR) as [N1 N2].
  rewrite (Q_decompose x y (alpha0_calc m) (alpha1_calc m) a0 a1 Hlen) in Heq.
  rewrite (R1_moments x y _ _ Hlen), (R2_moments x y _ _ Hlen) in Heq.
  fold n in Heq. rewrite E0, E1 in Heq. rewrite N1, N2 in Heq.
  rewrite <- E0, <- E1 in Heq.
  assert (HP : P x (alpha0_calc m - a0) (alpha1_calc m - a1) = 0) by lra.
  rewrite P_quadratic in HP. fold n in HP.
  set (d0 := alpha0_calc m - a0) in *. set (d1 := alpha1_calc m - a1) in *.
  assert (Hn : 0 < n).
  { unfold n. apply IZR_lt. destruct x as [|xi x]; [|simpl; lia].
    exfalso. apply HD. reflexivity. }
  assert (Hid : n * (n * (d0 * d0) + 2 * d0 * d1 * SX x + d1 * d1 * SXX x)
                = (n * d0 + d1 * SX x) * (n * d0 + d1 * SX x)
                  + d1 * d1 * (SXX x * n - SX x * SX x)) by ring.
  rewrite HP, Rmult_0_r, <- ED in Hid.
  pose proof (Rle_0_sqr (n * d0 + d1 * SX x)) as Hsq1. unfold Rsqr in Hsq1.
  pose proof (Rle_0_sqr d1) as Hsq2. unfold Rsqr in Hsq2.
  assert (Hd1sq : d1 * d1 = 0) by nra.
  assert (Hd1 : d1 = 0) by (apply Rmult_integral in Hd1sq; tauto).
  assert (Hd0sq : (n * d0) * (n * d0) = 0).
  { rewrite Hd1 in Hid. lra. }
  assert (Hd0 : d0 = 0).
  { apply Rmult_integral in Hd0sq.
    assert (Hnd : n * d0 = 0) by tauto.
    apply Rmult_integral in Hnd. destruct Hnd; lra. }
  unfold d0, d1 in *. split; lra.
Qed.

Lemma fit_is_the_only_minimum_witness :
  length [1; 2; 4] = length [1; 2; 3]%Z
  /\ fits_int64 [1; 2; 3]%Z
  /\ Delta [1; 2; 3]%Z <> 0%Z
  /\ 1 <> 0
  /\ forall a0 a1 : R,
       Chi2 3 [1; 2; 3]%Z [1; 2; 4] (ey_data 1 [1; 2; 3]%Z) a0 a1
       = Chi2 3 [1; 2; 3]%Z [1; 2; 4] (ey_data 1 [1; 2; 3]%Z)
           (alpha0_calc (AnalyticalLinearFit [1; 2; 3]%Z [1; 2; 4] 1))
           (alpha1_calc (AnalyticalLinearFit [1; 2; 3]%Z [1; 2; 4] 1)) ->
       a0 = alpha0_calc (AnalyticalLinearFit [1; 2; 3]%Z [1; 2; 4] 1)
       /\ a1 = alpha1_calc (AnalyticalLinearFit [1; 2; 3]%Z [1; 2; 4] 1).
Proof.
  assert (HD : Delta [1; 2; 3]%Z <> 0%Z) by (vm_compute; discriminate).
  split; [reflexivity|]. split; [exact fits_int64_three|]. split; [exact HD|].
  split; [exact R1_neq_R0|].
  exact (fit_is_the_only_minimum [1; 2; 3]%Z [1; 2; 4] 1 eq_refl fits_int64_three HD
           R1_neq_R0).
Defined.

End FittedLine.

(** ** Exact arithmetic: uncertainties, chi-square and the noise *)

Section ExactGrid.

Local Open Scope R_scope.

(** The real moments of the grid [1..n]. *)
Lemma grid_moments (n : nat) :
  (n <= Npoints_max)%nat ->
  let N := IZR (Z.of_nat n) in
  let x := x_grid n in
  IZR (s_calc x) = N
  /\ IZR (sx_calc x) = N * (N + 1) / 2
  /\ IZR (sxx_calc x) = N * (N + 1) * (2 * N + 1) / 6
  /\ IZR (Delta x) = N * N * (N * N - 1) / 12.
Proof.
  intros Hn N x.
  pose proof (fits_int64_x_grid n Hn) as Hfit.
  destruct (fits_int64_moments _ Hfit) as (E1 & E2 & E3).
  assert (Hx : x_grid n = one_to n).
  { apply x_grid_one_to. apply Npoints_max_int64 in Hn. unfold int64_max. lia. }
  rewrite Hx in E1 at 2. rewrite Hx in E2 at 2. rewrite Hx in E3 at 2.
  pose proof (exact_Sx_one_to n) as H1.
  pose proof (exact_Sxx_one_to n) as H2.
  pose proof (exact_Delta_one_to_12 n) as H3.
  rewrite <- E1 in H1. rewrite <- E2 in H2. rewrite <- E3 in H3.
  rewrite !Z.pow_2_r in H3.
  apply (f_equal IZR) in H1, H2, H3.
  repeat (rewrite mult_IZR in H1 || rewrite plus_IZR in H1).
  repeat (rewrite mult_IZR in H2 || rewrite plus_IZR in H2).
  repeat (rewrite mult_IZR in H3 || rewrite minus_IZR in H3).
  fold x in H1, H2, H3. fold N in H1, H2, H3.
  assert (Hs : s_calc x = Z.of_nat n) by (unfold s_calc, x; rewrite length_x_grid; reflexivity).
  rewrite Hs. fold N. repeat split; lra.
Qed.

(** X11.  In exact arithmetic, for [2 <= n <= Npoints_max] points on the grid
    [1..n], the two uncertainties are
    [sigma * sqrt (2 (2n + 1) / (n (n - 1)))] for the intercept and
    [sigma * sqrt (12 / (n (n^2 - 1)))] for the slope, whatever [y] is. *)
Theorem uncertainties_on_the_grid (n : nat) (y : list R) (sigma : R) :
  (2 <= n <= Npoints_max)%nat ->
  let N := IZR (Z.of_nat n) in
  sigma_alpha0_calc (AnalyticalLinearFit (x_grid n) y sigma)
  = sigma * sqrt (2 * (2 * N + 1) / (N * (N - 1)))
  /\ sigma_alpha1_calc (AnalyticalLinearFit (x_grid n) y sigma)
     = sigma * sqrt (12 / (N * (N * N - 1))).
Proof.
  intros [H2 Hn] N.
  destruct (grid_moments n Hn) as (Es & _ & Exx & ED). fold N in Es, Exx, ED.
  assert (HN : 2 <= N) by (unfold N; apply IZR_le; lia).
  rewrite sigma_alpha0_calc_eq, sigma_alpha1_calc_eq.
  cbn [fmul fdiv fsqrt of_int exact].
  rewrite Es, Exx, ED.
  split; f_equal; f_equal; field; repeat split; nra.
Qed.

Lemma uncertainties_on_the_grid_witness :
  (2 <= 9 <= Npoints_max)%nat
  /\ sigma_alpha1_calc (AnalyticalLinearFit (x_grid 9) [] 1)
     = 1 * sqrt (12 / (IZR (Z.of_nat 9) * (IZR (Z.of_nat 9) * IZR (Z.of_nat 9) - 1))).
Proof.
  assert (H : (2 <= 9 <= Npoints_max)%nat) by (unfold Npoints_max; lia).
  split; [exact H|].
  destruct (uncertainties_on_the_grid 9 [] 1 H) as [_ H1]. exact H1.
Defined.

Lemma pulls_fit_function (x : list Z) (y ey : list R) (a0 a1 : R) :
  length y = length x -> length ey = length x ->
  pulls x y ey a0 a1
  = map (fun t => fmul t t) (map2 fdiv (map2 fsub y (fit_function x a0 a1)) ey).
Proof.
  revert y ey. induction x as [|xi x IH]; intros [|yi y] [|ei ey] Hy He;
    try discriminate; [reflexivity|].
  simpl in Hy, He. cbn [pulls fit_function map map2].
  rewrite IH by lia. reflexivity.
Qed.

(** X2.  In exact arithmetic, on arrays of [n] entries, the element-by-element
    loop computes the array expression
    [np.sum(((y - fit_function(x, a0, a1)) / ey)**2)]: the [fit_value]
    written out in the loop is the value [fit_function] returns at [x[i]],
    and the generated [y] is [fit_function] at the true parameters plus the
    noise.  (In binary64 the two can differ in the last bits: the loop squares
    with [pow] and adds in index order, the array expression squares by
    multiplication and adds pairwise.) *)
Theorem Chi2_loop_is_array_expression (n : nat) (x : list Z) (y ey noise : list R)
    (a0 a1 : R) :
  (length x = n -> length y = n -> length ey = n ->
   Chi2 n x y ey a0 a1
   = Ok (np_sum (map (fun t => fmul t t)
                     (map2 fdiv (map2 fsub y (fit_function x a0 a1)) ey))))
  /\ y_data a0 a1 x noise = map2 fadd (fit_function x a0 a1) noise.
Proof.
  split; [|reflexivity].
  intros Hx Hy He. rewrite Chi2_pulls by assumption.
  rewrite pulls_fit_function by congruence.
  rewrite np_sum_exact. cbn [fadd of_int exact]. rewrite fold_left_Rplus.
  f_equal. ring.
Qed.

Lemma Q_nonneg (x : list Z) (y : list R) (a0 a1 : R) : 0 <= Q x y a0 a1.
Proof.
  revert y. induction x as [|xi x IH]; intros [|yi y]; cbn [Q]; try lra.
  pose proof (IH y). pose proof (Rle_0_sqr (yi - (a0 + a1 * IZR xi))) as H1.
  unfold Rsqr in H1. lra.
Qed.

Lemma Q_zero_iff (x : list Z) (y : list R) (a0 a1 : R) :
  length y = length x ->
  Q x y a0 a1 = 0 <-> y = fit_function x a0 a1.
Proof.
  revert y. induction x as [|xi x IH]; intros [|yi y] Hlen; try discriminate.
  - split; reflexivity.
  - simpl in Hlen. cbn [Q fit_function map].
    cbn [fadd fmul of_int exact].
    pose proof (Q_nonneg x y a0 a1) as Hq.
    pose proof (Rle_0_sqr (yi - (a0 + a1 * IZR xi))) as H1. unfold Rsqr in H1.
    split.
    + intros H.
      assert (Hq0 : Q x y a0 a1 = 0) by lra.
      assert (Hsq : (yi - (a0 + a1 * IZR xi)) * (yi - (a0 + a1 * IZR xi)) = 0) by lra.
      apply Rmult_integral in Hsq.
      assert (Hy : yi = a0 + a1 * IZR xi) by (destruct Hsq; lra).
      apply IH in Hq0; [|lia]. rewrite Hy, Hq0. reflexivity.
    + intros H. injection H as Hy Ht.
      assert (Hq0 : Q x y a0 a1 = 0) by (apply IH; [lia|exact Ht]).
      rewrite Hq0, Hy. ring.
Qed.

(** X12.  In exact arithmetic the chi-square the loop returns is never
    negative, and with [sigma] not zero it is zero exactly when every [y]
    is the value of [fit_function] at its [x]. *)
Theorem Chi2_is_zero_on_the_line_only (x : list Z) (y : list R) (sigma a0 a1 : R) :
  length y = length x ->
  exists c,
    Chi2 (length x) x y (ey_data sigma x) a0 a1 = Ok c
    /\ 0 <= c
    /\ (sigma <> 0 -> (c = 0 <-> y = fit_function x a0 a1)).
Proof.
  intros Hlen. exists (Q x y a0 a1 * (/ sigma * / sigma)).
  split; [apply Chi2_exact; exact Hlen|].
  pose proof (Q_nonneg x y a0 a1) as Hq.
  pose proof (Rle_0_sqr (/ sigma)) as Hk. unfold Rsqr in Hk.
  split; [apply Rmult_le_pos; assumption|].
  intros Hs. rewrite <- (Q_zero_iff x y a0 a1 Hlen).
  assert (Hk0 : / sigma * / sigma <> 0).
  { apply Rmult_integral_contrapositive_currified; apply Rinv_neq_0_compat; exact Hs. }
  split.
  - intros H. apply Rmult_integral in H. tauto.
  - intros ->. ring.
Qed.

Lemma Chi2_is_zero_on_the_line_only_witness :
  length [1; 2; 4] = length [1; 2; 3]%Z
  /\ exists c,
       Chi2 3 [1; 2; 3]%Z [1; 2; 4] (ey_data 1 [1; 2; 3]%Z) 0 1 = Ok c
       /\ 0 <= c
       /\ (1 <> 0 -> (c = 0 <-> [1; 2; 4] = fit_function [1; 2; 3]%Z 0 1)).
Proof.
  split; [reflexivity|].
  exact (Chi2_is_zero_on_the_line_only [1; 2; 3]%Z [1; 2; 4] 1 0 1 eq_refl).
Defined.

Lemma fit_function_moments (a0 a1 : R) (x : list Z) :
  SY (fit_function x a0 a1) = IZR (Z.of_nat (length x)) * a0 + a1 * SX x
  /\ SXY x (fit_function x a0 a1) = a0 * SX x + a1 * SXX x.
Proof.
  unfold SY, SXY, SX, SXX, fit_function. cbn [fadd fmul of_int exact].
  induction x as [|xi x IH].
  - cbn. split; ring.
  - destruct IH as (I1 & I2).
    cbn [map map2 Rsum fold_right length] in *.
    rewrite Nat2Z.inj_succ, succ_IZR.
    unfold Rsum in *. rewrite I1, I2. split; ring.
Qed.

(** X13.  In exact arithmetic, for [2 <= Npoints <= Npoints_max], each
    fitted parameter of a generated dataset is the true parameter plus the
    same fit applied to the noise alone: the error of the estimate does not
    depend on [alpha0] and [alpha1]. *)
Theorem estimate_is_truth_plus_fit_of_noise (cfg : Settings R) (noise : list R) :
  (2 <= Npoints cfg <= Npoints_max)%nat ->
  length noise = Npoints cfg ->
  let x := x_grid (Npoints cfg) in
  let y := y_data (alpha0 cfg) (alpha1 cfg) x noise in
  alpha0_calc (AnalyticalLinearFit x y (sigmay cfg))
  = alpha0 cfg + alpha0_calc (AnalyticalLinearFit x noise (sigmay cfg))
  /\ alpha1_calc (AnalyticalLinearFit x y (sigmay cfg))
     = alpha1 cfg + alpha1_calc (AnalyticalLinearFit x noise (sigmay cfg)).
Proof.
  intros Hn Hlen x y.
  assert (Hx : length x = Npoints cfg) by apply length_x_grid.
  assert (HDR : IZR (Delta x) <> 0).
  { apply not_0_IZR. pose proof (Delta_x_grid_pos (Npoints cfg) Hn). unfold x. lia. }
  pose proof (fits_int64_x_grid (Npoints cfg) (proj2 Hn)) as Hfit. fold x in Hfit.
  destruct (AnalyticalLinearFit_exact x y (sigmay cfg) Hfit) as (ED & -> & ->).
  destruct (AnalyticalLinearFit_exact x noise (sigmay cfg) Hfit) as (_ & -> & ->).
  rewrite ED in HDR.
  assert (Hy : y = map2 Rplus (fit_function x (alpha0 cfg) (alpha1 cfg)) noise)
    by reflexivity.
  destruct (fit_function_moments (alpha0 cfg) (alpha1 cfg) x) as (M1 & M2).
  assert (Hlf : length (fit_function x (alpha0 cfg) (alpha1 cfg)) = length x)
    by apply length_map.
  rewrite Hy, SY_plus, SXY_plus, M1, M2 by congruence.
  split; field; exact HDR.
Qed.

Definition three_noisy_points : Settings R :=
  {| Nexp := 1; Npoints := 3; alpha0 := 3.6; alpha1 := 0.3; sigmay := 1 |}.

Lemma estimate_is_truth_plus_fit_of_noise_witness :
  (2 <= Npoints three_noisy_points <= Npoints_max)%nat
  /\ length [1; -1; 0] = Npoints three_noisy_points
  /\ alpha1_calc
       (AnalyticalLinearFit (x_grid 3) (y_data 3.6 0.3 (x_grid 3) [1; -1; 0]) 1)
     = 0.3 + alpha1_calc (AnalyticalLinearFit (x_grid 3) [1; -1; 0] 1).
Proof.
  assert (H : (2 <= Npoints three_noisy_points <= Npoints_max)%nat)
    by (unfold Npoints_max; simpl; lia).
  split; [exact H|]. split; [reflexivity|].
  destruct (estimate_is_truth_plus_fit_of_noise three_noisy_points [1; -1; 0] H eq_refl)
    as [_ H1].
  exact H1.
Defined.

End ExactGrid.

(** ** Shifting the grid *)

Lemma Zsum_map_cong (f h : Z -> Z) (l : list Z) :
  (forall v, wrap64 (f v) = wrap64 (h v)) ->
  wrap64 (Zsum (map f l)) = wrap64 (Zsum (map h l)).
Proof.
  intros H. induction l as [|a l IH]; [reflexivity|].
  change (Zsum (map f (a :: l))) with (f a + Zsum (map f l)).
  change (Zsum (map h (a :: l))) with (h a + Zsum (map h l)).
  rewrite <- wrap64_add_l, <- (wrap64_add_r (wrap64 (f a))), H, IH.
  rewrite wrap64_add_r, wrap64_add_l. reflexivity.
Qed.

Lemma exact_moments_shift (c : Z) (l : list Z) :
  exact_Sx (map (fun v => v + c) l) = exact_Sx l + Z.of_nat (length l) * c
  /\ exact_Sxx (map (fun v => v + c) l)
     = exact_Sxx l + 2 * c * exact_Sx l + Z.of_nat (length l) * (c * c).
Proof.
  unfold exact_Sx, exact_Sxx. induction l as [|a l [IH1 IH2]].
  - cbn. split; ring.
  - change (Zsum (map (fun v => v + c) (a :: l)))
      with (a + c + Zsum (map (fun v => v + c) l)).
    change (Zsum (map (fun v => v * v) (map (fun v => v + c) (a :: l))))
      with ((a + c) * (a + c) + Zsum (map (fun v => v * v) (map (fun v => v + c) l))).
    change (Zsum (a :: l)) with (a + Zsum l).
    change (Zsum (map (fun v => v * v) (a :: l))) with (a * a + Zsum (map (fun v => v * v) l)).
    change (length (a :: l)) with (S (length l)).
    rewrite IH1, IH2, Nat2Z.inj_succ. split; ring.
Qed.

Lemma exact_Delta_shift (c : Z) (l : list Z) :
  exact_Delta (map (fun v => v + c) l) = exact_Delta l.
Proof.
  unfold exact_Delta. destruct (exact_moments_shift c l) as [-> ->].
  rewrite length_map. ring.
Qed.

Lemma wrap64_Delta_cong (a a' b b' n : Z) :
  wrap64 a = wrap64 a' -> wrap64 b = wrap64 b' ->
  wrap64 (a * n - b * b) = wrap64 (a' * n - b' * b').
Proof.
  intros Ha Hb.
  rewrite <- (wrap64_sub (a * n) (b * b)), <- (wrap64_mul_l a n), <- (wrap64_mul b b).
  rewrite Ha, Hb.
  rewrite (wrap64_mul_l a' n), (wrap64_mul b' b'), wrap64_sub. reflexivity.
Qed.

(** X14.  Adding one integer to every [x], as [np.arange(Npoints)+1] does,
    changes neither [Delta] nor the uncertainty of the slope; this holds in
    64-bit arithmetic with wrap-around and in either float arithmetic. *)
Theorem Delta_ignores_a_shift_of_x {F : Type} {FO : Float64 F}
    (c : Z) (x : list Z) (y y' : list F) (sigma : F) :
  Delta (map (fun v => i64_add v c) x) = Delta x
  /\ sigma_alpha1_calc (AnalyticalLinearFit (map (fun v => i64_add v c) x) y sigma)
     = sigma_alpha1_calc (AnalyticalLinearFit x y' sigma).
Proof.
  assert (HD : Delta (map (fun v => i64_add v c) x) = Delta x).
  { rewrite !Delta_wrap. rewrite <- (exact_Delta_shift c x).
    unfold exact_Delta, exact_Sx, exact_Sxx, i64_add.
    rewrite !map_map, !length_map.
    apply wrap64_Delta_cong.
    - apply (Zsum_map_cong (fun v => wrap64 (v + c) * wrap64 (v + c))
               (fun v => (v + c) * (v + c))).
      intros v. apply wrap64_mul.
    - apply (Zsum_map_wrap (fun v => v + c)). }
  split; [exact HD|].
  rewrite !sigma_alpha1_calc_eq, HD. unfold s_calc. rewrite length_map. reflexivity.
Qed.

Section TwoPoints.

Local Open Scope R_scope.

(** X15.  In exact arithmetic, with two points the fitted line passes through
    both: whatever the settings and the two noise values, the loop returns the
    slope [y2 - y1], the intercept [2 y1 - y2], a chi-square of exactly zero
    and zero degrees of freedom. *)
Theorem two_points_are_fitted_exactly (chi2_sf : R -> Z -> R) (cfg : Settings R)
    (e1 e2 : R) :
  Npoints cfg = 2%nat ->
  let y1 := alpha0 cfg + alpha1 cfg * 1 + e1 in
  let y2 := alpha0 cfg + alpha1 cfg * 2 + e2 in
  exists r,
    experiment chi2_sf cfg [e1; e2] = Ok r
    /\ alpha0_calc (model r) = 2 * y1 - y2
    /\ alpha1_calc (model r) = y2 - y1
    /\ Chi2_calc r = 0
    /\ Ndof_calc r = 0%Z.
Proof.
  intros HN y1 y2.
  assert (Hlen : length [e1; e2] = Npoints cfg) by (rewrite HN; reflexivity).
  eexists. split; [apply (experiment_Ok chi2_sf cfg [e1; e2] Hlen)|].
  cbn [model Chi2_calc Ndof_calc]. rewrite HN.
  change (x_grid 2) with [1; 2]%Z.
  change (y_data (alpha0 cfg) (alpha1 cfg) [1; 2]%Z [e1; e2]) with [y1; y2].
  assert (A0 : alpha0_calc (AnalyticalLinearFit [1; 2]%Z [y1; y2] (sigmay cfg)) = 2 * y1 - y2).
  { destruct (alpha_calc_exact [1; 2]%Z [y1; y2] (sigmay cfg)) as [-> _].
    change (sxx_calc [1; 2]%Z) with 5%Z. change (sx_calc [1; 2]%Z) with 3%Z.
    change (Delta [1; 2]%Z) with 1%Z. unfold SY, SXY. cbn. field. }
  assert (A1 : alpha1_calc (AnalyticalLinearFit [1; 2]%Z [y1; y2] (sigmay cfg)) = y2 - y1).
  { destruct (alpha_calc_exact [1; 2]%Z [y1; y2] (sigmay cfg)) as [_ ->].
    change (s_calc [1; 2]%Z) with 2%Z. change (sx_calc [1; 2]%Z) with 3%Z.
    change (Delta [1; 2]%Z) with 1%Z. unfold SY, SXY. cbn. field. }
  split; [exact A0|]. split; [exact A1|]. split; [|reflexivity].
  rewrite (pulls_exact [1; 2]%Z [y1; y2] (sigmay cfg) _ _ _ eq_refl), A0, A1.
  cbn [of_int exact Q]. ring.
Qed.

Definition two_real_points : Settings R :=
  {| Nexp := 1; Npoints := 2; alpha0 := 3.6; alpha1 := 0.3; sigmay := 1 |}.

Lemma two_points_are_fitted_exactly_witness :
  Npoints two_real_points = 2%nat
  /\ forall chi2_sf : R -> Z -> R,
       exists r,
         experiment chi2_sf two_real_points [1; -1] = Ok r
         /\ alpha0_calc (model r) = 2 * (3.6 + 0.3 * 1 + 1) - (3.6 + 0.3 * 2 + -1)
         /\ alpha1_calc (model r) = 3.6 + 0.3 * 2 + -1 - (3.6 + 0.3 * 1 + 1)
         /\ Chi2_calc r = 0
         /\ Ndof_calc r = 0%Z.
Proof.
  split; [reflexivity|]. intros sf.
  exact (two_points_are_fitted_exactly sf two_real_points 1 (-1) eq_refl).
Defined.

End TwoPoints.

(** ** The loop on a small generator *)

(** A linear congruential generator whose draws are the integers [-2 .. 2]:
    a stand-in for the generator of numpy, to run the loop on. *)
Definition lcg_gauss (g : Z) : float * Z :=
  (of_int (g mod 5 - 2), (1103515245 * g + 12345) mod 2 ^ 31).

Lemma two_points_accepted : signbit (sigmay two_points) = false.
Proof. vm_compute. reflexivity. Qed.


Lemma loop_prints_first_ten_witness :
  signbit (sigmay two_points) = false
  /\ forall sf : float -> Z -> float,
       exists st,
         Repeater sf lcg_gauss two_points 42 = Ok st
         /\ length (printed st) = Nat.min (Nexp two_points) 10.
Proof.
  split; [exact two_points_accepted|]. intros sf.
  destruct (loop_prints_first_ten sf lcg_gauss two_points 42 two_points_accepted) as (st & H1 & H2 & _).
  exists st. split; assumption.
Defined.

Lemma loop_draws_in_order_witness :
  signbit (sigmay two_points) = false
  /\ forall sf : float -> Z -> float,
       exists st,
         Repeater sf lcg_gauss two_points 42 = Ok st
         /\ rng st = draws lcg_gauss (Nexp two_points * Npoints two_points) 42.
Proof.
  split; [exact two_points_accepted|]. intros sf.
  destruct (loop_draws_in_order sf lcg_gauss two_points 42 two_points_accepted) as (st & H1 & H2 & _).
  exists st. split; assumption.
Defined.
